(** * Vibration unit firmware (PIC16F18313): protocol, sine and square engines

    A shallow embedding of the node firmware [Vibration_Unit.c]
    (true-sine + square variant): the UART protocol state machine
    [UART_processing], the interrupt service routine [ISR] with the
    Timer1 sine tick and the Timer2 window tick, the main-loop
    [square_processing], and the bridge helpers [coast_both],
    [route_halfcycle], [set_pwm10], [lra_set_amp].

    Every C global and every special-function register (or register bit
    field) the code touches is a location of type [loc]; the machine state is
    a total map [mem] from locations to integers.  A C statement is a
    computation in the monad [M], which threads the memory and collects the
    chronological list of writes it performs, so that ordering properties are
    statements about that list. *)

From Stdlib Require Import ZArith List Bool Lia.
Import ListNotations.
Local Open Scope Z_scope.

(** ** Fixed-width arithmetic *)

Definition u8 (x : Z) : Z := x mod 256.
Definition u16 (x : Z) : Z := x mod 65536.
Definition u32 (x : Z) : Z := x mod 4294967296.

(** ** Locations *)

Inductive loc : Set :=
  (* static volatile globals *)
  | buffer | state | wave_mode | duty5_raw | duty_pct | freq_index
  | uart_led_flag
  | color_index | color0 | color1 | color2
  | phase_idx | last_sign | t1_reload | scale
  | index200 | cwg_flag | duty_flag | square_tick
  (* CCP1 / Timer2 *)
  | CCPR1H | CCPR1L | CCP1CON | PR2 | TMR2 | TMR2ON | T2CKPS | TMR2IF | TMR2IE
  (* Timer1 *)
  | TMR1H | TMR1L | TMR1ON | T1CKPS | TMR1IF | TMR1IE
  (* port A routing, latches and directions *)
  | RA0PPS | RA1PPS | LATA0 | LATA1 | TRISA0 | TRISA1
  (* complementary waveform generator *)
  | CWG1CON0_EN | CWG1CON1_POLA | CWG1CON1_POLB
  (* EUSART *)
  | RC1REG | TX1REG | RCIF | RCIE | OERR | FERR | CREN
  (* interrupt control *)
  | PEIE | GIE.

Scheme Equality for loc.

Definition mem : Type := loc -> Z.

Definition upd (l : loc) (v : Z) (m : mem) : mem :=
  fun l' => if loc_beq l l' then v else m l'.

(** ** Observable actions *)

Inductive event : Set :=
  | Wr (l : loc) (v : Z)            (* a store to a global or a register *)
  | Rd (l : loc)                    (* a read with a side effect (RC1REG) *)
  | Call_sendColor (r g b : Z).     (* the external LED routine *)

(** ** The monad of C statements *)

Record res (A : Type) : Type := mkRes { val : A; st : mem; evs : list event }.
Arguments mkRes {A} _ _ _.
Arguments val {A} _.
Arguments st {A} _.
Arguments evs {A} _.

Definition M (A : Type) : Type := mem -> res A.

Definition ret {A} (a : A) : M A := fun m => mkRes a m [].

Definition bind {A B} (c : M A) (k : A -> M B) : M B :=
  fun m =>
    match c m with
    | mkRes a m1 l1 =>
        match k a m1 with
        | mkRes b m2 l2 => mkRes b m2 (l1 ++ l2)
        end
    end.

Declare Scope cstmt_scope.
Delimit Scope cstmt_scope with cstmt.
Notation "x <- c ;; k" := (bind c (fun x => k))
  (at level 61, c at next level, right associativity) : cstmt_scope.
Notation "c ;; k" := (bind c (fun _ => k))
  (at level 61, right associativity) : cstmt_scope.
Local Open Scope cstmt_scope.

Definition rd (l : loc) : M Z := fun m => mkRes (m l) m [].
Definition wr (l : loc) (v : Z) : M unit := fun m => mkRes tt (upd l v m) [Wr l v].
Definition emit (e : event) : M unit := fun m => mkRes tt m [e].
Definition skip : M unit := ret tt.

(** C truth value of an integer. *)
Definition truthy (x : Z) : bool := negb (x =? 0).

(** ** PWM duty register (Timer2 / CCP1), right-aligned 10-bit format *)

Definition set_pwm10 (dc10 : Z) : M unit :=
  wr CCPR1H (u8 (Z.shiftr dc10 2)) ;;
  wr CCPR1L (u8 (Z.shiftl (Z.land dc10 3) 6)).

(** The 10-bit duty value held by the register pair. *)
Definition pwm10_of (m : mem) : Z := 4 * m CCPR1H + Z.shiftr (m CCPR1L) 6.

(** ** True-sine engine data *)

Definition SINE_LEN : Z := 64.
Definition CCP1_PPS_CODE : Z := 12.
Definition MIN_DRIVE_TKS : Z := 2.

Definition SINE64_8 : list Z :=
  [   0;   12;   25;   37;   49;   60;   71;   81;
     90;   99;  106;  113;  118;  122;  125;  127;
    127;  127;  125;  122;  118;  113;  106;   99;
     90;   81;   71;   60;   49;   37;   25;   12;
      0;  -12;  -25;  -37;  -49;  -60;  -71;  -81;
    -90;  -99; -106; -113; -118; -122; -125; -127;
   -127; -127; -125; -122; -118; -113; -106;  -99;
    -90;  -81;  -71;  -60;  -49;  -37;  -25;  -12 ].

Definition T1_RELOAD : list Z :=
  [ u16 (65536 - 127); u16 (65536 - 108); u16 (65536 - 92); u16 (65536 - 78);
    u16 (65536 - 66);  u16 (65536 - 57);  u16 (65536 - 49); u16 (65536 - 41) ].

Definition PR_val : list Z := [85; 72; 60; 52; 44; 37; 32; 27].

Definition idx (tbl : list Z) (i : Z) : Z := nth (Z.to_nat i) tbl 0.

(** ** Bridge helpers *)

(** Detach CCP1 from both pins and drive RA0/RA1 low. *)
Definition coast_both : M unit :=
  wr RA1PPS 0 ;; wr LATA1 0 ;;
  wr RA0PPS 0 ;; wr LATA0 0.

(** Half-cycle routing: [+] puts the PWM on RA0 and RA1 high,
    [-] puts the PWM on RA1 and RA0 high. *)
Definition route_halfcycle (sign : Z) : M unit :=
  if sign >? 0 then
    wr RA0PPS CCP1_PPS_CODE ;;
    wr RA1PPS 0 ;;
    wr LATA1 1 ;; wr LATA0 0
  else
    wr RA1PPS CCP1_PPS_CODE ;;
    wr RA0PPS 0 ;;
    wr LATA0 1 ;; wr LATA1 0.

Definition t1_apply_reload (fidx : Z) : M unit :=
  wr t1_reload (idx T1_RELOAD (Z.land fidx 7)) ;;
  wr TMR1ON 0 ;;
  r <- rd t1_reload ;;
  wr TMR1H (u8 (Z.shiftr r 8)) ;;
  wr TMR1L (u8 (Z.land r 255)) ;;
  wr TMR1IF 0 ;;
  wr TMR1ON 1.

(** Full-scale carrier duty [top = 4*(PR2+1)-1], in 16-bit unsigned
    arithmetic. *)
Definition carrier_top (pr2 : Z) : Z := u16 (4 * u16 (u16 pr2 + 1) - 1).

(** Amplitude of a percentage against a full scale. *)
Definition amp_scale (top pct : Z) : Z := u16 (u32 (u32 (u32 top * u32 pct) + 50) / 100).

Definition lra_set_amp (pct : Z) : M unit :=
  let pct := if pct >? 100 then 100 else pct in
  pr2 <- rd PR2 ;;
  let top := carrier_top pr2 in
  wr scale (amp_scale top pct) ;;
  sc <- rd scale ;;
  if truthy sc then skip else (coast_both ;; set_pwm10 0).

(** ** Square engine: window evaluation (run from the main loop) *)

(** The window predicate of [square_processing]: a [d]-wide pulse at the
    start of each 100-unit half; the upper bound is an 8-bit sum. *)
Definition window_on (i d : Z) : bool :=
  (i <? d) || ((i >=? 100) && (i <? u8 (100 + d))).

Definition square_processing : M unit :=
  i <- rd index200 ;;
  d <- rd duty_pct ;;
  if window_on i d then
    (let half := i >=? 100 in
     cf <- rd cwg_flag ;;
     ls <- rd last_sign ;;
     (if (cf =? 0) || negb (ls =? (if half then -1 else 1)) then
        wr CWG1CON0_EN 0 ;;
        (if negb half
         then wr CWG1CON1_POLA 0 ;; wr CWG1CON1_POLB 0 ;; wr last_sign 1
         else wr CWG1CON1_POLA 1 ;; wr CWG1CON1_POLB 1 ;; wr last_sign (-1)) ;;
        wr CWG1CON0_EN 1 ;;
        wr cwg_flag 1
      else skip) ;;
     df <- rd duty_flag ;;
     if df =? 0 then
       pr2 <- rd PR2 ;;
       set_pwm10 (carrier_top pr2) ;;
       wr duty_flag 1
     else skip)
  else
    (cf <- rd cwg_flag ;;
     (if cf =? 1 then
        wr CWG1CON0_EN 0 ;;
        wr TRISA0 1 ;;
        wr TRISA1 1 ;;
        wr cwg_flag 0
      else skip) ;;
     df <- rd duty_flag ;;
     if df =? 1 then
       set_pwm10 0 ;;
       wr duty_flag 0
     else skip).

(** ** UART protocol *)

Definition make_addr_byte (start addr6 : Z) : Z :=
  u8 (Z.lor (u8 (Z.shiftl (Z.land addr6 63) 1)) (Z.land start 1)).

(** [UART_Write] spins on the transmitter-empty flag, which the hardware
    raises within one byte time, and then loads the transmit register. *)
Definition UART_Write (d : Z) : M unit := wr TX1REG d.

(** Committed intensity of a 5-bit duty code: [(duty5_raw * 100) / 32]
    computed on 16 bits and stored on 8. *)
Definition duty_pct_of (d5 : Z) : Z := u8 (u16 (u16 d5 * 100) / 32).

(** The STOP branch of [UART_processing]. *)
Definition stop_path : M unit :=
  (* sine off *)
  wr TMR1ON 0 ;; wr TMR1IE 0 ;;
  coast_both ;; set_pwm10 0 ;;
  (* square off *)
  wr TMR2ON 0 ;; wr TMR2IE 0 ;;
  (* CWG ready for square *)
  wr RA1PPS 8 ;; wr RA0PPS 9 ;; wr CWG1CON0_EN 1 ;;
  wr duty_pct 0 ;; wr cwg_flag 0 ;; wr duty_flag 0 ;; wr square_tick 0 ;;
  (* LED off *)
  wr uart_led_flag 1 ;;
  wr duty5_raw 0 ;;
  wr state 0.

(** The sine branch of the commit. [T1CON = 0] clears every field of the
    register; the two that are modelled are [T1CKPS] and [TMR1ON]. *)
Definition arm_sine : M unit :=
  wr TMR2ON 0 ;;
  wr T2CKPS 0 ;;
  wr PR2 199 ;; set_pwm10 0 ;;
  wr TMR2 0 ;; wr TMR2IF 0 ;; wr TMR2ON 1 ;;
  wr CCP1CON 159 ;;
  wr CWG1CON0_EN 0 ;;
  coast_both ;;
  wr T1CKPS 0 ;; wr TMR1ON 0 ;;
  wr T1CKPS 3 ;;
  wr TMR1IF 0 ;; wr TMR1IE 1 ;;
  wr phase_idx 0 ;; wr last_sign 0 ;;
  p <- rd duty_pct ;;
  lra_set_amp p ;;
  f <- rd freq_index ;;
  t1_apply_reload f.

(** The square branch of the commit. *)
Definition arm_square : M unit :=
  wr TMR1ON 0 ;; wr TMR1IE 0 ;;
  coast_both ;;
  wr CCP1CON 159 ;;
  wr RA1PPS 8 ;; wr RA0PPS 9 ;; wr CWG1CON0_EN 1 ;;
  wr TMR2ON 0 ;;
  wr T2CKPS 1 ;;
  f <- rd freq_index ;;
  wr PR2 (idx PR_val f) ;;
  wr TMR2 0 ;; wr TMR2IF 0 ;; wr TMR2ON 1 ;; wr TMR2IE 1 ;;
  wr index200 0 ;; wr cwg_flag 0 ;; wr duty_flag 0 ;; wr square_tick 0 ;;
  wr last_sign 0.

Definition UART_processing : M unit :=
  b <- rd buffer ;;
  if Z.shiftr b 7 =? 0 then
    (* address byte *)
    (let addr := Z.land (Z.shiftr b 1) 63 in
     let start := Z.land b 1 in
     if negb (addr =? 0) then
       UART_Write (make_addr_byte start (u8 (addr - 1))) ;;
       wr state 0
     else if negb (truthy start) then stop_path
     else wr state 1)
  else
    (* data byte *)
    (s <- rd state ;;
     if s =? 0 then UART_Write b
     else if s =? 1 then
       wr duty5_raw (u8 (Z.land b 31)) ;;
       wr state 2
     else
       (let d2 := Z.land b 127 in
        wr wave_mode (Z.land (Z.shiftr d2 3) 1) ;;
        wr freq_index (Z.land d2 7) ;;
        d5 <- rd duty5_raw ;;
        wr duty_pct (duty_pct_of d5) ;;
        wr uart_led_flag 1 ;;
        w <- rd wave_mode ;;
        (if truthy w then arm_sine else arm_square) ;;
        wr state 0)).

(** ** Interrupt service routine *)

(** The duty arithmetic of a sine tick: sample magnitude times amplitude
    over 128, rounded, clamped to the carrier full scale and inverted. *)
Definition sine_duty (s8 sc pr2 : Z) : Z :=
  let mag := u16 (if s8 >=? 0 then s8 else - s8) in
  let tmp := u32 (u32 sc * u32 mag) in
  let duty_fwd := u16 (Z.shiftr (u32 (tmp + 64)) 7) in
  let top := carrier_top pr2 in
  let duty_fwd := if duty_fwd >=? top then top else duty_fwd in
  u16 (top - duty_fwd).

(** The Timer1 branch: one sine tick. *)
Definition ISR_sine_tick : M unit :=
  wr TMR1IF 0 ;;
  w <- rd wave_mode ;;
  if negb (truthy w) then skip else
    r <- rd t1_reload ;;
    wr TMR1H (u8 (Z.shiftr r 8)) ;;
    wr TMR1L (u8 (Z.land r 255)) ;;
    p <- rd phase_idx ;;
    (let i0 := u8 (p + 1) in
     let i := if i0 >=? SINE_LEN then 0 else i0 in
     wr phase_idx i ;;
     let s8 := idx SINE64_8 i in
     ls <- rd last_sign ;;
     let sgn := if s8 >? 0 then 1 else if s8 <? 0 then -1 else ls in
     sc <- rd scale ;;
     if negb (truthy sc) then
       coast_both ;; set_pwm10 0 ;; wr last_sign sgn
     else
       ls' <- rd last_sign ;;
       (if negb (sgn =? ls') then
          coast_both ;; route_halfcycle sgn ;; wr last_sign sgn
        else skip) ;;
       sc' <- rd scale ;;
       pr2 <- rd PR2 ;;
       set_pwm10 (sine_duty s8 sc' pr2)).

(** The Timer2 branch: one window tick. *)
Definition ISR_window_tick : M unit :=
  wr TMR2IF 0 ;;
  w <- rd wave_mode ;;
  if negb (truthy w) then
    i <- rd index200 ;;
    wr index200 (u8 (i + 1)) ;;
    i' <- rd index200 ;;
    (if i' =? 200 then wr index200 0 else skip) ;;
    wr square_tick 1
  else skip.

(** The receive branch. *)
Definition ISR_receive : M unit :=
  oerr <- rd OERR ;;
  (if truthy oerr then wr CREN 0 ;; wr CREN 1 else skip) ;;
  ferr <- rd FERR ;;
  if truthy ferr then
    emit (Rd RC1REG) ;; wr RCIF 0
  else
    wr RCIF 0 ;;
    emit (Rd RC1REG) ;;
    b <- rd RC1REG ;;
    wr buffer b ;;
    UART_processing.

Definition ISR : M unit :=
  rcif <- rd RCIF ;;
  if truthy rcif then ISR_receive
  else
    t1 <- rd TMR1IF ;;
    if truthy t1 then ISR_sine_tick
    else
      t2 <- rd TMR2IF ;;
      if truthy t2 then ISR_window_tick else skip.

(** ** Main loop *)

Definition KEY16 : list (Z * Z * Z) :=
  [ (0, 0, 0);     (0, 32, 32);   (0, 64, 64);   (0, 128, 128);
    (0, 255, 255); (0, 255, 128); (0, 255, 0);   (128, 255, 0);
    (255, 255, 0); (255, 128, 0); (255, 0, 0);   (255, 0, 128);
    (255, 0, 255); (128, 0, 255); (64, 0, 255);  (255, 255, 255) ].

Definition key16 (seg : Z) : Z * Z * Z := nth (Z.to_nat seg) KEY16 (0, 0, 0).

Definition getColor32 (idx32 : Z) : Z * Z * Z :=
  let idx32 := if idx32 >? 31 then 31 else idx32 in
  let seg := Z.shiftr idx32 1 in
  let odd := Z.land idx32 1 in
  if negb (truthy odd) || (seg >=? 15) then key16 seg
  else
    let '(r0, g0, b0) := key16 seg in
    let '(r1, g1, b1) := key16 (seg + 1) in
    (u8 (Z.shiftr (r0 + r1) 1), u8 (Z.shiftr (g0 + g1) 1), u8 (Z.shiftr (b0 + b1) 1)).

(** One pass of the [for(;;)] body of [main], run to its end without
    interruption. *)
Definition main_pass : M unit :=
  lf <- rd uart_led_flag ;;
  (if truthy lf then
     wr uart_led_flag 0 ;;
     ci <- rd color_index ;;
     d5 <- rd duty5_raw ;;
     if negb (ci =? d5) then
       wr color_index d5 ;;
       (let '(r, g, b) := getColor32 d5 in
        wr color0 r ;; wr color1 g ;; wr color2 b ;;
        gie <- rd GIE ;;
        wr GIE 0 ;;
        emit (Call_sendColor r g b) ;;
        wr GIE gie)
     else skip
   else skip) ;;
  sq <- rd square_tick ;;
  if truthy sq then square_processing ;; wr square_tick 0 else skip.

(** ** Initialisation *)

(** Receiver set-up of [usart_init]; the pin-select and baud-rate registers
    are not modelled. *)
Definition usart_init : M unit :=
  wr CREN 1 ;;
  wr RCIF 0 ;; wr RCIE 1.

(** [pwm_cwg_init]; of the whole-register stores [T2CON = 0],
    [CWG1CON1 = 0] and [CWG1CON0 = 0b01000100] the modelled fields are written,
    the CWG clock, data-source, shutdown and dead-band registers are not
    modelled. *)
Definition pwm_cwg_init : M unit :=
  wr TRISA0 0 ;;
  wr TRISA1 0 ;;
  wr CCP1CON 159 ;;
  set_pwm10 0 ;;
  wr T2CKPS 0 ;; wr TMR2ON 0 ;;
  wr T2CKPS 0 ;;
  wr PR2 199 ;;
  wr TMR2 0 ;;
  wr TMR2IF 0 ;;
  wr TMR2ON 0 ;;
  wr CWG1CON1_POLA 0 ;; wr CWG1CON1_POLB 0 ;;
  wr CWG1CON0_EN 0 ;;
  wr CWG1CON0_EN 0 ;;
  coast_both ;;
  wr TMR2IF 0 ;;
  wr TMR2IE 0 ;;
  wr TMR1IF 0 ;;
  wr TMR1IE 0 ;;
  wr PEIE 1 ;;
  wr GIE 1.

(** Memory at power-on: the C initialisers of the globals, every modelled
    register field at zero. *)
Definition power_on : mem :=
  fun l => match l with
           | wave_mode => 1
           | freq_index => 3
           | _ => 0
           end.

(** The prologue of [main], up to the loop; the external [SPI_Init] of the
    LED driver touches none of the modelled locations. *)
Definition main_init : M unit :=
  usart_init ;;
  pwm_cwg_init ;;
  set_pwm10 0.

Definition boot : mem := st (main_init power_on).

(** ** Environment: hardware events, interrupt entry, main-loop passes *)

Inductive stimulus : Set :=
  | HwRx (b : Z) (ferr oerr : bool)  (* a byte reaches the receive register *)
  | HwTmr1                           (* Timer1 overflows *)
  | HwTmr2                           (* Timer2 matches PR2 *)
  | Irq                              (* the core vectors to the ISR *)
  | MainPass.                        (* one pass of the main loop *)

Definition b2z (b : bool) : Z := if b then 1 else 0.

(** An interrupt is taken when a flag is raised and its source enabled,
    under the global and peripheral enables. *)
Definition irq_pending (m : mem) : bool :=
  truthy (m GIE) && truthy (m PEIE) &&
  ((truthy (m RCIF) && truthy (m RCIE)) ||
   (truthy (m TMR1IF) && truthy (m TMR1IE)) ||
   (truthy (m TMR2IF) && truthy (m TMR2IE))).

(** [MainPass] runs a whole pass of the main loop as one step: in a [run]
    the interrupt routine is served between passes, never inside one.  The
    firmware masks interrupts only around the LED call, so this is a
    restriction of its behaviours; [preempted], further down, lifts it. *)
Definition fire (e : stimulus) : M unit :=
  fun m =>
    match e with
    | HwRx b ferr oerr =>
        mkRes tt (upd RCIF 1 (upd OERR (b2z oerr) (upd FERR (b2z ferr)
                   (upd RC1REG (u8 b) m)))) []
    | HwTmr1 => mkRes tt (upd TMR1IF 1 m) []
    | HwTmr2 => mkRes tt (upd TMR2IF 1 m) []
    | Irq => if irq_pending m then ISR m else mkRes tt m []
    | MainPass => main_pass m
    end.

Fixpoint run (es : list stimulus) : M unit :=
  match es with
  | [] => skip
  | e :: es' => fire e ;; run es'
  end.

(** States the firmware can be in between two steps of a [run]: between
    interrupt entries and whole main-loop passes. *)
Inductive reachable : mem -> Prop :=
  | reach_boot : reachable boot
  | reach_fire (e : stimulus) (m : mem) :
      reachable m -> reachable (st (fire e m)).

(** Reception of a byte followed by the interrupt that serves it. *)
Definition receive (b : Z) : list stimulus := [HwRx b false false; Irq].

(** ** The LUT variant of the duty mapper (Dev/Gabriel/Vibration_Unit.c) *)

Definition duty_cycle_lut_5bit : list Z :=
  [ 0; 0; 0; 1; 2; 3; 4; 5; 7; 8; 10; 13; 15; 18; 20; 23;
    27; 30; 34; 38; 42; 46; 50; 55; 60; 65; 70; 76; 82; 88; 94; 99 ].

Definition lut_duty (duty_index : Z) : Z := idx duty_cycle_lut_5bit duty_index.

(** ** Window positions of one square cycle *)

Definition zrange (lo : Z) (n : nat) : list Z :=
  map (fun k => lo + Z.of_nat k) (seq 0 n).

Definition positions : list Z := zrange 0 200.
Definition first_half : list Z := zrange 0 100.
Definition second_half : list Z := zrange 100 100.

Definition on_count (d : Z) (l : list Z) : Z :=
  Z.of_nat (length (filter (fun i => window_on i d) l)).
Definition off_count (d : Z) (l : list Z) : Z :=
  Z.of_nat (length (filter (fun i => negb (window_on i d)) l)).

(** ** Protocol view *)

(** The firmware keeps no separate flag for "this node is the target of the
    transaction in progress": data bytes are consumed exactly when
    [state] is not 0 and relayed when it is 0. *)
Definition addressed (m : mem) : bool := negb (m state =? 0).

(** Bytes loaded into the transmit register, in order. *)
Fixpoint tx_bytes (l : list event) : list Z :=
  match l with
  | [] => []
  | Wr TX1REG v :: l' => v :: tx_bytes l'
  | _ :: l' => tx_bytes l'
  end.

(** Address-byte fields. *)
Definition chain_address (b : Z) : Z := Z.land (Z.shiftr b 1) 63.
Definition start_flag (b : Z) : Z := Z.land b 1.

(** ** Bridge view *)

(** Routing and latch of the two legs: (RA0PPS, RA1PPS, LATA0, LATA1). *)
Definition bridge : Set := (Z * Z * Z * Z)%type.

Definition bridge_of (m : mem) : bridge := (m RA0PPS, m RA1PPS, m LATA0, m LATA1).

(** Both pins detached from every peripheral and both latches low: the
    state [coast_both] establishes. *)
Definition coasted (b : bridge) : bool :=
  let '(p0, p1, l0, l1) := b in
  (p0 =? 0) && (p1 =? 0) && (l0 =? 0) && (l1 =? 0).

Definition bridge_step (e : event) (b : bridge) : bridge :=
  let '(p0, p1, l0, l1) := b in
  match e with
  | Wr RA0PPS v => (v, p1, l0, l1)
  | Wr RA1PPS v => (p0, v, l0, l1)
  | Wr LATA0 v => (p0, p1, v, l1)
  | Wr LATA1 v => (p0, p1, l0, v)
  | _ => b
  end.

Definition bridge_replay (l : list event) (b : bridge) : bridge :=
  fold_left (fun b e => bridge_step e b) l b.

(** A write that puts the switching carrier (CCP1) on a leg. *)
Definition attaches_carrier (e : event) : bool :=
  match e with
  | Wr RA0PPS v => v =? CCP1_PPS_CODE
  | Wr RA1PPS v => v =? CCP1_PPS_CODE
  | _ => false
  end.

(** Break-before-make over a trace of writes that starts with the bridge in
    state [b]: the carrier is only ever attached to a leg while the bridge
    is in the coast state. *)
Fixpoint break_before_make (b : bridge) (l : list event) : bool :=
  match l with
  | [] => true
  | e :: l' =>
      (if attaches_carrier e then coasted b else true) &&
      break_before_make (bridge_step e b) l'
  end.

(** A write to one of the four routing/latch locations. *)
Definition bridge_write (e : event) : bool :=
  match e with
  | Wr RA0PPS _ | Wr RA1PPS _ | Wr LATA0 _ | Wr LATA1 _ => true
  | _ => false
  end.

(** The writes of [coast_both] and of [route_halfcycle]. *)
Definition coast_writes : list event :=
  [Wr RA1PPS 0; Wr LATA1 0; Wr RA0PPS 0; Wr LATA0 0].

Definition route_writes (sign : Z) : list event :=
  if sign >? 0
  then [Wr RA0PPS CCP1_PPS_CODE; Wr RA1PPS 0; Wr LATA1 1; Wr LATA0 0]
  else [Wr RA1PPS CCP1_PPS_CODE; Wr RA0PPS 0; Wr LATA0 1; Wr LATA1 0].

(** The sample and the drive sign the next sine tick computes. *)
Definition next_phase (m : mem) : Z :=
  let i0 := u8 (m phase_idx + 1) in if i0 >=? SINE_LEN then 0 else i0.

Definition next_sample (m : mem) : Z := idx SINE64_8 (next_phase m).

Definition next_sign (m : mem) : Z :=
  let s8 := next_sample m in
  if s8 >? 0 then 1 else if s8 <? 0 then -1 else m last_sign.

(** Values stored into the duty register pair. *)
Fixpoint duty_writes (l : list event) : list Z :=
  match l with
  | [] => []
  | Wr CCPR1H v :: l' => v :: duty_writes l'
  | Wr CCPR1L v :: l' => v :: duty_writes l'
  | _ :: l' => duty_writes l'
  end.

(** The committed intensity stays 0 all along a run. *)
Fixpoint stays_silent (es : list stimulus) (m : mem) : Prop :=
  match es with
  | [] => True
  | e :: es' =>
      st (fire e m) duty_pct = 0 /\ stays_silent es' (st (fire e m))
  end.

(** ** The duty register value of a sine tick, as the specification words it

    [duty_fwd] is the amplitude times the sample magnitude over the sample
    full scale (128, the divisor of the table's fixed-point format), rounded
    to nearest and clamped to the carrier full scale; below the minimum-drive
    floor the register is fully off.  The floor test is the one of the sine
    firmwares of the repository that have one,
    [if (duty_forward <= MIN_DRIVE_TICKS) set_pwm10(duty_max)]. *)
Definition round_div (a b : Z) : Z := (2 * a + b) / (2 * b).

Definition spec_duty_fwd (top sc s8 : Z) : Z :=
  Z.min top (round_div (sc * Z.abs s8) 128).

Definition spec_duty_register (top sc s8 : Z) : Z :=
  let duty_fwd := spec_duty_fwd top sc s8 in
  if duty_fwd <=? MIN_DRIVE_TKS then top else top - duty_fwd.

(** ** Order of writes in a trace *)




(** ** What STOP leaves behind *)







(** A clean byte [b] waits in the receive register. *)
Definition byte_pending (b : Z) (m : mem) : Prop :=
  truthy (m RCIF) = true /\ truthy (m FERR) = false /\ m RC1REG = b.


(** Scenarios used as concrete inputs. *)

(** START, duty code 1, sine at frequency index 3. *)
Definition start_sine_low : list stimulus :=
  receive 1 ++ receive 129 ++ receive 139.


(** The ISR is entered for a sine tick: no byte waits, the Timer1 flag is
    up and the sine waveform is selected. *)
Definition sine_tick_pending (m : mem) : Prop :=
  truthy (m RCIF) = false /\ truthy (m TMR1IF) = true /\
  truthy (m wave_mode) = true.

(** The sine engine has nothing to drive: the square waveform is selected
    (sine ticks return at once) or the amplitude scale is 0. *)
Definition silent (m : mem) : Prop := m wave_mode = 0 \/ m scale = 0.

(** What every reachable state satisfies: the duty code is a 5-bit value,
    the committed intensity is at most 96, the sine waveform runs on the
    40 kHz carrier (PR2 = 199), and the amplitude scale is 0 or the scale of
    a nonzero duty code. *)
Definition protocol_inv (m : mem) : Prop :=
  0 <= m duty5_raw <= 31 /\
  0 <= m duty_pct <= 96 /\
  (truthy (m wave_mode) = true -> m PR2 = 199) /\
  (m scale = 0 \/ 24 <= m scale <= 767).

(** The window position after one Timer2 tick in square mode
    ([index200++; if (index200 == 200) index200 = 0]), and the positions
    the next [n] ticks go through. *)
Definition next_index (i : Z) : Z :=
  let i' := u8 (i + 1) in if i' =? 200 then 0 else i'.

Fixpoint visited (n : nat) (i : Z) : list Z :=
  match n with
  | O => []
  | S n' => next_index i :: visited n' (next_index i)
  end.

(** The window positions that [n] consecutive Timer2 ticks of the ISR
    produce from memory [m]. *)
Fixpoint window_ticks (n : nat) (m : mem) : list Z :=
  match n with
  | O => []
  | S n' =>
      let m' := st (ISR_window_tick m) in
      m' index200 :: window_ticks n' m'
  end.

(** ** Reception, as the hardware and the interrupt logic deliver it *)

(** Global, peripheral and receive interrupts are enabled. *)
Definition rx_enabled (m : mem) : Prop :=
  truthy (m GIE) = true /\ truthy (m PEIE) = true /\ truthy (m RCIE) = true.

(** Memory once byte [b] has landed, without error, in the receive register. *)
Definition rx_load (b : Z) (m : mem) : mem := st (fire (HwRx b false false) m).


(** ** Invariants of the reachable states *)

Definition bit (x : Z) : Prop := x = 0 \/ x = 1.

(** Ranges of the protocol and engine variables: the stage is one of the
    three stages, table indices are inside their tables, flags are bits,
    the two CWG polarity bits are equal, the Timer1 interrupt is enabled
    only while the sine waveform is selected. *)
Definition machine_inv (m : mem) : Prop :=
  (m state = 0 \/ m state = 1 \/ m state = 2) /\
  bit (m wave_mode) /\
  0 <= m freq_index <= 7 /\
  0 <= m phase_idx < 64 /\
  0 <= m index200 < 200 /\
  (m last_sign = -1 \/ m last_sign = 0 \/ m last_sign = 1) /\
  bit (m cwg_flag) /\ bit (m duty_flag) /\ bit (m square_tick) /\
  bit (m CWG1CON1_POLA) /\ m CWG1CON1_POLB = m CWG1CON1_POLA /\
  (m TMR1IE <> 0 -> m wave_mode <> 0) /\
  0 <= m PR2 < 256.

(** The four configurations of the two bridge pins: coast, carrier on RA0
    with RA1 high, carrier on RA1 with RA0 high, both pins on the CWG. *)
Definition bridge_config (b : bridge) : Prop :=
  b = (0, 0, 0, 0) \/ b = (CCP1_PPS_CODE, 0, 0, 1) \/
  b = (0, CCP1_PPS_CODE, 1, 0) \/ b = (9, 8, 0, 0).


(** The leg routing agrees with the sign the sine engine last drove. *)
Definition drive_consistent (m : mem) : Prop :=
  (m last_sign = 0 /\ bridge_of m = (0, 0, 0, 0)) \/
  (m last_sign = 1 /\ bridge_of m = (CCP1_PPS_CODE, 0, 0, 1)) \/
  (m last_sign = -1 /\ bridge_of m = (0, CCP1_PPS_CODE, 1, 0)).


(** The routing [route_halfcycle] establishes for a sign. *)
Definition routed_for (sgn : Z) : bridge :=
  if sgn >? 0 then (CCP1_PPS_CODE, 0, 0, 1) else (0, CCP1_PPS_CODE, 1, 0).

(** A square START at full intensity, one window tick left pending for the
    main loop, a sine START at full intensity, then the main-loop pass. *)
Definition square_then_sine : list stimulus :=
  receive 1 ++ receive 159 ++ receive 128 ++ [HwTmr2; Irq] ++
  receive 1 ++ receive 159 ++ receive 136 ++ [MainPass].


(** ** The main loop preempted

    The interrupt routine can be entered between any two stores of the main
    loop.  Seen from the interrupt routine the main loop is then a writer of
    the locations [main] and [square_processing] store to, one store at a
    time; the stored values are left open. *)

Definition main_stores (l : loc) : bool :=
  match l with
  | uart_led_flag | color_index | color0 | color1 | color2 | GIE | square_tick
  | CWG1CON0_EN | CWG1CON1_POLA | CWG1CON1_POLB | last_sign
  | cwg_flag | duty_flag | TRISA0 | TRISA1 | CCPR1H | CCPR1L => true
  | _ => false
  end.

Definition main_store (e : event) : bool :=
  match e with
  | Wr l _ => main_stores l
  | _ => true
  end.

Inductive preempted : mem -> Prop :=
  | pre_boot : preempted boot
  | pre_fire (e : stimulus) (m : mem) :
      preempted m -> preempted (st (fire e m))
  | pre_store (l : loc) (v : Z) (m : mem) :
      main_stores l = true -> preempted m -> preempted (upd l v m).

(** The part of [machine_inv] on variables only the interrupt routine and
    the initialisation write. *)
Definition isr_inv (m : mem) : Prop :=
  (m state = 0 \/ m state = 1 \/ m state = 2) /\
  0 <= m freq_index <= 7 /\
  0 <= m phase_idx < 64 /\
  0 <= m index200 < 200 /\
  0 <= m PR2 < 256.


(** ** LED view *)

Definition is_led_call (e : event) : bool :=
  match e with Call_sendColor _ _ _ => true | _ => false end.

(** Every call of the LED routine happens with interrupts masked; [gie] is
    the current value of the global enable. *)
Fixpoint led_masked (gie : Z) (l : list event) : bool :=
  match l with
  | [] => true
  | Wr GIE v :: l' => led_masked v l'
  | Call_sendColor _ _ _ :: l' => (gie =? 0) && led_masked gie l'
  | _ :: l' => led_masked gie l'
  end.

Definition rgb_eqb (a b : Z * Z * Z) : bool :=
  let '(r1, g1, b1) := a in
  let '(r2, g2, b2) := b in
  (r1 =? r2) && (g1 =? g2) && (b1 =? b2).

Definition rgb_bytes (c : Z * Z * Z) : bool :=
  let '(r, g, b) := c in
  (0 <=? r) && (r <=? 255) && (0 <=? g) && (g <=? 255) && (0 <=? b) && (b <=? 255).

Definition rgb_mean (a b : Z * Z * Z) : Z * Z * Z :=
  let '(r1, g1, b1) := a in
  let '(r2, g2, b2) := b in
  ((r1 + r2) / 2, (g1 + g2) / 2, (b1 + b2) / 2).


(** ** Quiescence *)

(** Nothing is pending and no engine interrupt is enabled. *)
Definition quiescent (m : mem) : Prop :=
  m RCIF = 0 /\ m TMR1IE = 0 /\ m TMR2IE = 0 /\
  m uart_led_flag = 0 /\ m square_tick = 0.

Definition no_reception (e : stimulus) : bool :=
  match e with HwRx _ _ _ => false | _ => true end.


(** ** The LUT variant (Dev/Gabriel/Vibration_Unit.c)

    The earlier two-byte firmware: even parity in the ninth bit of every
    byte, one data byte carrying a 5-bit duty index and a 2-bit frequency
    index, the duty taken from [duty_cycle_lut_5bit], square drive only.
    It has its own globals, hence its own store.  [TMR2ON] is bit 2 of
    [T2CON], as the two stores [T2CON = 0b00000001] (not started) and
    [T2CON = 0b00000101] (started) of the source show. *)

Module Lut.

Inductive var : Set :=
  | buffer | parity | uart_recv_flag
  | duty_index | duty_cycle | freq_index
  | ccp_flag | cwg_flag | duty_flag | index | state
  | color_index | color0 | color1 | color2
  | T2CON | PR2 | TRISA0 | TRISA1
  | TX9D | TX1REG | RX9D | RC1REG | RCIF
  | CCPR1H | CCPR1L | CWG1CON0_EN | CWG1CON1_POLB
  | TMR2IF | CCP1IF.

Scheme Equality for var.

Definition store : Type := var -> Z.

Definition set (x : var) (v : Z) (s : store) : store :=
  fun y => if var_beq x y then v else s y.

Inductive action : Set :=
  | Wr (x : var) (v : Z)
  | Call_sendColor (r g b : Z).

Record out (A : Type) : Type := mkOut { val : A; st : store; acts : list action }.
Arguments mkOut {A} _ _ _.
Arguments val {A} _.
Arguments st {A} _.
Arguments acts {A} _.

Definition C (A : Type) : Type := store -> out A.

Definition ret {A} (a : A) : C A := fun s => mkOut a s [].

Definition bind {A B} (c : C A) (k : A -> C B) : C B :=
  fun s =>
    match c s with
    | mkOut a s1 l1 =>
        match k a s1 with
        | mkOut b s2 l2 => mkOut b s2 (l1 ++ l2)
        end
    end.

Declare Scope lut_scope.
Notation "x <- c ;; k" := (bind c (fun x => k))
  (at level 61, c at next level, right associativity) : lut_scope.
Notation "c ;; k" := (bind c (fun _ => k))
  (at level 61, right associativity) : lut_scope.
Local Open Scope lut_scope.

Definition rd (x : var) : C Z := fun s => mkOut (s x) s [].
Definition wr (x : var) (v : Z) : C unit := fun s => mkOut tt (set x v s) [Wr x v].
Definition emit (a : action) : C unit := fun s => mkOut tt s [a].
Definition skip : C unit := ret tt.

Definition PR_val : list Z := [72; 52; 37; 27].

Definition DUTY_MASK : Z := 124.
Definition FREQ_MASK : Z := 3.

Definition make_addr_byte (start addr : Z) : Z :=
  let addr_byte := 0 in
  let addr_byte := u8 (Z.lor addr_byte (Z.land start 1)) in
  u8 (Z.lor addr_byte (Z.shiftl addr 1)).

(** The loop of [getParity]: each round flips [p] and clears the lowest set
    bit of [n]; [fuel] bounds the number of tests of the loop condition. *)
Fixpoint getParity_loop (fuel : nat) (p n : Z) : option Z :=
  match fuel with
  | O => None
  | S fuel' =>
      if n =? 0 then Some (Z.land p 1)
      else getParity_loop fuel' (if p =? 0 then 1 else 0) (u8 (Z.land n (n - 1)))
  end.

(** A byte has at most eight set bits: nine tests are enough. *)
Definition getParity (n : Z) : Z :=
  match getParity_loop 9 0 n with
  | Some p => p
  | None => 0
  end.

Definition UART_Write (data : Z) : C unit :=
  wr TX9D (Z.land (getParity data) 1) ;;
  wr TX1REG data.

Definition UART_processing : C unit :=
  b <- rd buffer ;;
  par <- rd parity ;;
  if negb (getParity b =? par) then skip
  else if negb (Z.shiftr b 7 =? 1) then
    (let addr := Z.shiftr b 1 in
     let start := Z.land b 1 in
     if negb (addr =? 0) then
       wr state 0 ;;
       UART_Write (make_addr_byte start (u8 (addr - 1)))
     else
       wr state start ;;
       if start =? 0 then
         t <- rd T2CON ;;
         wr T2CON (Z.clearbit t 2) ;;
         wr TRISA0 1 ;;
         wr TRISA1 1 ;;
         wr duty_index 0
       else skip)
  else
    (s <- rd state ;;
     if s =? 0 then
       wr TX9D (Z.land par 1) ;;
       wr TX1REG b
     else
       wr TRISA1 0 ;;
       wr TRISA0 0 ;;
       wr T2CON 5 ;;
       wr freq_index (Z.land b FREQ_MASK) ;;
       wr duty_index (Z.shiftr (Z.land b DUTY_MASK) 2) ;;
       di <- rd duty_index ;;
       wr duty_cycle (lut_duty di) ;;
       fi <- rd freq_index ;;
       wr PR2 (idx PR_val fi) ;;
       wr state 0).

Definition cwg_window (i d : Z) : bool :=
  (i <? d) || ((i >=? 100) && (i <? d + 100)).

Definition CCP_processing : C unit :=
  i <- rd index ;;
  d <- rd duty_cycle ;;
  (if cwg_window i d then
     cf <- rd cwg_flag ;;
     if cf =? 0 then
       wr CWG1CON0_EN 0 ;;
       wr CWG1CON1_POLB 0 ;;
       wr CWG1CON0_EN 1 ;;
       wr cwg_flag 1
     else skip
   else
     cf <- rd cwg_flag ;;
     if cf =? 1 then
       wr CWG1CON0_EN 0 ;;
       wr CWG1CON1_POLB 1 ;;
       wr CWG1CON0_EN 1 ;;
       wr cwg_flag 0
     else skip) ;;
  if i <? d then
    df <- rd duty_flag ;;
    if df =? 0 then
      fi <- rd freq_index ;;
      wr CCPR1H (idx PR_val fi) ;;
      wr CCPR1L 0 ;;
      wr duty_flag 1
    else skip
  else
    df <- rd duty_flag ;;
    if df =? 1 then
      wr CCPR1H 0 ;;
      wr CCPR1L 64 ;;
      wr duty_flag 0
    else skip.

Definition palette16 : list (Z * Z * Z) :=
  [ (0, 0, 0);     (0, 32, 32);   (0, 64, 64);   (0, 128, 128);
    (0, 255, 255); (0, 255, 128); (0, 255, 0);   (128, 255, 0);
    (255, 255, 0); (255, 128, 0); (255, 0, 0);   (255, 0, 128);
    (255, 0, 255); (128, 0, 255); (64, 0, 255);  (255, 255, 255) ].

Definition getColor (duty_index_5bit : Z) : Z * Z * Z :=
  let idx16 := Z.shiftr duty_index_5bit 1 in
  let idx16 := if idx16 >? 15 then 15 else idx16 in
  nth (Z.to_nat idx16) palette16 (0, 0, 0).

Definition ISR : C unit :=
  rcif <- rd RCIF ;;
  if truthy rcif then
    wr RCIF 0 ;;
    p <- rd RX9D ;;
    wr parity p ;;
    b <- rd RC1REG ;;
    wr buffer b ;;
    UART_processing ;;
    wr uart_recv_flag 1
  else
    t2 <- rd TMR2IF ;;
    if truthy t2 then
      wr TMR2IF 0 ;;
      i <- rd index ;;
      wr index (u8 (i + 1)) ;;
      i' <- rd index ;;
      (if i' =? 200 then wr index 0 else skip) ;;
      wr ccp_flag 1
    else
      c1 <- rd CCP1IF ;;
      if truthy c1 then wr CCP1IF 0 else skip.

Definition main_pass : C unit :=
  rf <- rd uart_recv_flag ;;
  (if truthy rf then
     wr uart_recv_flag 0 ;;
     ci <- rd color_index ;;
     di <- rd duty_index ;;
     if negb (ci =? di) then
       wr color_index di ;;
       (let '(r, g, b) := getColor di in
        wr color0 r ;; wr color1 g ;; wr color2 b ;;
        emit (Call_sendColor r g b))
     else skip
   else skip) ;;
  cf <- rd ccp_flag ;;
  if truthy cf then CCP_processing ;; wr ccp_flag 0 else skip.

(** Parity of a byte, bit by bit. *)
Definition bit_parity (n : Z) : Z :=
  Z.b2z (fold_left xorb (map (Z.testbit n) [0; 1; 2; 3; 4; 5; 6; 7]) false).

(** Transmissions: pairs (ninth bit, byte), in order. *)
Fixpoint frames (l : list action) : list (Z * Z) :=
  match l with
  | Wr TX9D p :: Wr TX1REG d :: l' => (p, d) :: frames l'
  | _ :: l' => frames l'
  | [] => []
  end.


(** C initialisers of the globals, registers at zero. *)
Definition reset : store :=
  fun x => match x with freq_index => 1 | _ => 0 end.

End Lut.


(** * Proofs *)

(** ** Checking a decidable property on an integer interval *)

Lemma zrange_complete (lo : Z) (n : nat) (z : Z) :
  lo <= z < lo + Z.of_nat n -> In z (zrange lo n).
Proof.
  intros Hz. unfold zrange. apply in_map_iff.
  exists (Z.to_nat (z - lo)). split; [lia|].
  apply in_seq. lia.
Qed.

Lemma forall_zrange (P : Z -> bool) (lo : Z) (n : nat) :
  forallb P (zrange lo n) = true ->
  forall z, lo <= z < lo + Z.of_nat n -> P z = true.
Proof.
  intros Hall z Hz. rewrite forallb_forall in Hall.
  apply Hall, zrange_complete, Hz.
Qed.

(** ** Duty mapper *)

Lemma duty_pct_of_div (d : Z) :
  0 <= d <= 255 -> duty_pct_of d = (d * 100 / 32) mod 256.
Proof.
  intros Hd. unfold duty_pct_of, u8, u16.
  rewrite (Z.mod_small d) by lia.
  rewrite (Z.mod_small (d * 100)) by lia. reflexivity.
Qed.

Lemma duty_pct_of_floor (d : Z) :
  0 <= d <= 31 -> duty_pct_of d = d * 100 / 32.
Proof.
  intros Hd. rewrite duty_pct_of_div by lia.
  apply Z.mod_small. split.
  - apply Z.div_pos; lia.
  - apply Z.div_lt_upper_bound; lia.
Qed.

Lemma duty_pct_of_mono (a b : Z) :
  0 <= a -> a <= b -> b <= 31 -> duty_pct_of a <= duty_pct_of b.
Proof.
  intros Ha Hab Hb. rewrite !duty_pct_of_floor by lia.
  apply Z.div_le_mono; lia.
Qed.

Lemma duty_pct_of_bound (d : Z) :
  0 <= d <= 31 -> 0 <= duty_pct_of d <= 96.
Proof.
  intros Hd. rewrite duty_pct_of_floor by lia. split.
  - apply Z.div_pos; lia.
  - replace 96 with (31 * 100 / 32) by reflexivity.
    apply Z.div_le_mono; lia.
Qed.

Lemma lut_duty_step (d : Z) :
  0 <= d < 31 -> lut_duty d <= lut_duty (d + 1).
Proof.
  intros Hd.
  apply Z.leb_le.
  apply (forall_zrange (fun d => lut_duty d <=? lut_duty (d + 1)) 0 31);
    [vm_compute; reflexivity | lia].
Qed.

Lemma lut_duty_mono (a b : Z) :
  0 <= a -> a <= b -> b <= 31 -> lut_duty a <= lut_duty b.
Proof.
  intros Ha Hab Hb.
  replace b with (a + Z.of_nat (Z.to_nat (b - a))) in * by lia.
  generalize dependent (Z.to_nat (b - a)). intros n.
  induction n as [|n IH]; intros Hab Hb.
  - rewrite Z.add_0_r. lia.
  - rewrite Nat2Z.inj_succ in *.
    transitivity (lut_duty (a + Z.of_nat n)).
    + apply IH; lia.
    + replace (a + Z.succ (Z.of_nat n)) with (a + Z.of_nat n + 1) by lia.
      apply lut_duty_step. lia.
Qed.

(** ** Symbolic execution *)

Ltac exec :=
  cbv beta iota zeta delta
    [ISR ISR_receive ISR_sine_tick ISR_window_tick UART_processing UART_Write
     stop_path arm_sine arm_square square_processing main_pass
     coast_both route_halfcycle set_pwm10 lra_set_amp t1_apply_reload
     fire run receive
     bind ret rd wr emit skip val st evs upd loc_beq app].

Ltac split_if :=
  match goal with
  | H : ?c = _ |- context [if ?c then _ else _] => rewrite H
  | |- context [if ?c then _ else _] =>
      lazymatch c with
      | context [if _ then _ else _] => fail
      | _ => let E := fresh "E" in destruct c eqn:E
      end
  end.

Ltac run_all := exec; repeat (split_if; exec).

Lemma truthy_true (x : Z) : truthy x = true <-> x <> 0.
Proof.
  unfold truthy. rewrite negb_true_iff, Z.eqb_neq. reflexivity.
Qed.

Lemma truthy_false (x : Z) : truthy x = false <-> x = 0.
Proof.
  unfold truthy. rewrite negb_false_iff, Z.eqb_eq. reflexivity.
Qed.

(** ** Receive faults *)

(** C9. A frame error makes the ISR read the receive register and return:
    [UART_processing] is not run, so apart from the receive flag (and the
    receiver enable bit, toggled back to 1 on overrun) no location changes,
    in particular neither [state] nor the addressed view, and nothing is
    transmitted.  An overrun resets the receiver (CREN cleared then set)
    before anything else, and the ISR then goes on exactly as without
    overrun.  The ISR returns nothing to any caller. *)
Theorem receive_faults_local (m : mem) :
  truthy (m RCIF) = true ->
  (truthy (m FERR) = true ->
     evs (ISR m) =
       (if truthy (m OERR) then [Wr CREN 0; Wr CREN 1] else []) ++
       [Rd RC1REG; Wr RCIF 0] /\
     (forall l, l <> RCIF -> l <> CREN -> st (ISR m) l = m l) /\
     st (ISR m) state = m state /\
     addressed (st (ISR m)) = addressed m /\
     tx_bytes (evs (ISR m)) = []) /\
  (truthy (m OERR) = true ->
     evs (ISR m) = [Wr CREN 0; Wr CREN 1] ++ evs (ISR (upd OERR 0 m)) /\
     st (ISR m) CREN = 1 /\
     (forall l, l <> CREN -> l <> OERR ->
                st (ISR m) l = st (ISR (upd OERR 0 m)) l)) /\
  val (ISR m) = tt.
Proof.
  intros Hrc. split; [|split].
  - intros Hfe. unfold addressed.
    destruct (truthy (m OERR)) eqn:Hoe; run_all;
      (repeat split; try reflexivity);
      intros l H1 H2; destruct l; try reflexivity; congruence.
  - intros Hoe.
    assert (Hoe' : truthy 0 = false) by reflexivity.
    split; [|split].
    + run_all; reflexivity.
    + run_all; reflexivity.
    + intros l H1 H2. run_all; destruct l; try reflexivity; congruence.
  - destruct (val (ISR m)). reflexivity.
Qed.

Lemma receive_faults_local_witness :
  let m := st (fire (HwRx 1 true true) boot) in
  st (ISR m) state = m state /\ st (ISR m) CREN = 1.
Proof.
  pose proof (receive_faults_local (st (fire (HwRx 1 true true) boot))
                eq_refl) as [Hf [Ho _]].
  split.
  - exact (proj1 (proj2 (proj2 (Hf eq_refl)))).
  - exact (proj1 (proj2 (Ho eq_refl))).
Defined.

(** ** Address forwarding *)

Lemma addr_byte_fields (b : Z) :
  0 <= b < 128 -> chain_address b <> 0 ->
  let b' := make_addr_byte (start_flag b) (u8 (chain_address b - 1)) in
  0 <= b' < 128 /\
  chain_address b' = chain_address b - 1 /\
  start_flag b' = start_flag b.
Proof.
  intros Hb Hne.
  set (chk := fun y =>
    (chain_address y =? 0) ||
    (let y' := make_addr_byte (start_flag y) (u8 (chain_address y - 1)) in
     (0 <=? y') && (y' <? 128) &&
     (chain_address y' =? chain_address y - 1) &&
     (start_flag y' =? start_flag y))).
  assert (Hall : forallb chk (zrange 0 128) = true) by (vm_compute; reflexivity).
  pose proof (forall_zrange chk 0 128 Hall b Hb) as Hchk.
  unfold chk in Hchk. clear Hall chk.
  cbv beta zeta in Hchk.
  apply orb_true_iff in Hchk. destruct Hchk as [Hz | Hok].
  - apply Z.eqb_eq in Hz. contradiction.
  - repeat (apply andb_true_iff in Hok; destruct Hok as [Hok ?]).
    cbv zeta. repeat split; try (apply Z.eqb_eq; assumption);
      try (apply Z.leb_le; assumption); try (apply Z.ltb_lt; assumption).
Qed.

Lemma addr_byte_msb (b : Z) : 0 <= b < 128 -> (Z.shiftr b 7 =? 0) = true.
Proof.
  intros Hb. apply Z.eqb_eq. rewrite Z.shiftr_div_pow2 by lia.
  apply Z.div_small. simpl. lia.
Qed.

(** C5 (amended). An address byte with chain address [k > 0] makes the
    protocol machine transmit exactly one byte: an address byte carrying
    [k - 1] and the same start flag.  Waveform, duty code, committed
    intensity and frequency index are untouched; the stage is reset to 0,
    so the node is not addressed afterwards. *)
Theorem address_forwarding (m : mem) :
  0 <= m buffer < 128 ->
  chain_address (m buffer) <> 0 ->
  (exists b', tx_bytes (evs (UART_processing m)) = [b'] /\
              0 <= b' < 128 /\
              chain_address b' = chain_address (m buffer) - 1 /\
              start_flag b' = start_flag (m buffer)) /\
  st (UART_processing m) wave_mode = m wave_mode /\
  st (UART_processing m) duty5_raw = m duty5_raw /\
  st (UART_processing m) duty_pct = m duty_pct /\
  st (UART_processing m) freq_index = m freq_index /\
  st (UART_processing m) state = 0 /\
  addressed (st (UART_processing m)) = false.
Proof.
  intros Hb Hk.
  pose proof (addr_byte_msb _ Hb) as Hmsb.
  assert (Hnz : (Z.land (Z.shiftr (m buffer) 1) 63 =? 0) = false)
    by (apply Z.eqb_neq; exact Hk).
  pose proof (addr_byte_fields _ Hb Hk) as Hf. cbv zeta in Hf.
  unfold addressed. exec. rewrite Hmsb. exec. rewrite Hnz. exec.
  split; [|repeat split].
  exists (make_addr_byte (start_flag (m buffer)) (u8 (chain_address (m buffer) - 1))).
  split; [reflexivity | exact Hf].
Qed.

Lemma address_forwarding_witness :
  let m := upd buffer 5 boot in
  tx_bytes (evs (UART_processing m)) = [3] /\
  st (UART_processing m) duty_pct = m duty_pct.
Proof.
  assert (H1 : 0 <= upd buffer 5 boot buffer < 128) by (vm_compute; split; [discriminate | reflexivity]).
  assert (H2 : chain_address (upd buffer 5 boot buffer) <> 0) by (vm_compute; discriminate).
  pose proof (address_forwarding (upd buffer 5 boot) H1 H2) as [_ [_ [_ [Hd _]]]].
  split; [vm_compute; reflexivity | exact Hd].
Defined.

(** C5, as first stated, fails on the addressed flag: a node that has
    consumed a START address byte (stage 1, addressed) and then receives an
    address byte for a node further down the chain (0x05, chain address 2)
    forwards it and drops back to stage 0, so its addressed view changes
    from true to false. *)
Lemma forwarding_clears_addressed :
  let m := st (run (receive 1) boot) in
  let m' := st (run (receive 5) m) in
  chain_address 5 = 2 /\
  tx_bytes (evs (run (receive 5) m)) = [3] /\
  addressed m = true /\ addressed m' = false /\
  ~ (addressed m' = addressed m).
Proof.
  vm_compute. repeat split; discriminate.
Qed.

(** ** STOP *)

Lemma run_cons_evs (e : stimulus) (es : list stimulus) (m : mem) :
  evs (run (e :: es) m) = evs (fire e m) ++ evs (run es (st (fire e m))).
Proof.
  simpl. unfold bind. destruct (fire e m) as [a m1 l1]. cbn [st evs].
  destruct (run es m1) as [b m2 l2]. reflexivity.
Qed.

Lemma run_cons_st (e : stimulus) (es : list stimulus) (m : mem) :
  st (run (e :: es) m) = st (run es (st (fire e m))).
Proof.
  simpl. unfold bind. destruct (fire e m) as [a m1 l1]. cbn [st evs].
  destruct (run es m1) as [b m2 l2]. reflexivity.
Qed.

Lemma run_app_st (es1 es2 : list stimulus) (m : mem) :
  st (run (es1 ++ es2) m) = st (run es2 (st (run es1 m))).
Proof.
  revert m. induction es1 as [|e es1 IH]; intros m.
  - reflexivity.
  - rewrite <- app_comm_cons, !run_cons_st. apply IH.
Qed.

Lemma run_app_evs (es1 es2 : list stimulus) (m : mem) :
  evs (run (es1 ++ es2) m) = evs (run es1 m) ++ evs (run es2 (st (run es1 m))).
Proof.
  revert m. induction es1 as [|e es1 IH]; intros m.
  - reflexivity.
  - rewrite <- app_comm_cons, !run_cons_evs, run_cons_st, IH.
    apply app_assoc.
Qed.









(** ** Break-before-make *)

Lemma coast_both_trace (m : mem) :
  evs (coast_both m) = coast_writes /\
  coasted (bridge_of (st (coast_both m))) = true.
Proof. split; reflexivity. Qed.

Lemma route_halfcycle_trace (sign : Z) (m : mem) :
  evs (route_halfcycle sign m) = route_writes sign.
Proof.
  unfold route_halfcycle, route_writes. destruct (sign >? 0); reflexivity.
Qed.

Lemma break_before_make_app (l1 l2 : list event) (b : bridge) :
  break_before_make b (l1 ++ l2) =
  break_before_make b l1 && break_before_make (bridge_replay l1 b) l2.
Proof.
  revert b. induction l1 as [|e l1 IH]; intros b.
  - reflexivity.
  - simpl. rewrite IH, andb_assoc. reflexivity.
Qed.

(** The trace of a step accounts for the bridge it leaves. *)
Lemma fire_bridge_sound (e : stimulus) (m : mem) :
  bridge_of (st (fire e m)) = bridge_replay (evs (fire e m)) (bridge_of m).
Proof.
  unfold bridge_of.
  destruct e; [reflexivity | reflexivity | reflexivity | | ].
  - cbv beta iota delta [fire]. destruct (irq_pending m); [|reflexivity].
    run_all; reflexivity.
  - run_all; try reflexivity;
      destruct (getColor32 (m duty5_raw)) as [[r g] b]; run_all; reflexivity.
Qed.

Lemma fire_break_before_make (e : stimulus) (m : mem) :
  break_before_make (bridge_of m) (evs (fire e m)) = true.
Proof.
  unfold bridge_of.
  destruct e; [reflexivity | reflexivity | reflexivity | | ].
  - cbv beta iota delta [fire]. destruct (irq_pending m); [|reflexivity].
    run_all; reflexivity.
  - run_all; try reflexivity;
      destruct (getColor32 (m duty5_raw)) as [[r g] b]; run_all; reflexivity.
Qed.

Lemma run_break_before_make (es : list stimulus) (m : mem) :
  break_before_make (bridge_of m) (evs (run es m)) = true.
Proof.
  revert m. induction es as [|e es IH]; intros m.
  - reflexivity.
  - rewrite run_cons_evs, break_before_make_app, <- fire_bridge_sound.
    rewrite fire_break_before_make, IH. reflexivity.
Qed.

(** C1. On a sine tick the only writes to the leg routing and latches are:
    nothing, when the amplitude is nonzero and the drive sign is the one
    already driven; the coast sequence alone, when the amplitude is zero; the
    coast sequence followed by the routing of the new half cycle, when the
    sign differs from the last driven one.  The coast sequence leaves both
    legs detached and low, whatever the bridge was.  And over every trace of
    the firmware, whatever the stimuli, the carrier is attached to a leg
    only while the bridge is in the coast state. *)
Theorem sine_break_before_make :
  (forall m, sine_tick_pending m ->
     filter bridge_write (evs (ISR m)) =
       if truthy (m scale) then
         if next_sign m =? m last_sign then []
         else coast_writes ++ route_writes (next_sign m)
       else coast_writes) /\
  (forall b, coasted (bridge_replay coast_writes b) = true) /\
  (forall m es, break_before_make (bridge_of m) (evs (run es m)) = true).
Proof.
  split; [|split].
  - intros m (Hrc & Ht1 & Hw).
    unfold next_sign, next_sample, next_phase, route_writes, coast_writes.
    cbv zeta.
    assert (Hw' : negb (truthy (m wave_mode)) = false) by (rewrite Hw; reflexivity).
    exec. rewrite Hrc. exec. rewrite Ht1. exec. rewrite Hw'. exec.
    destruct (truthy (m scale)) eqn:Hsc; cbn [negb]; exec; [|reflexivity].
    repeat (split_if; exec); cbn [negb]; exec; try reflexivity;
      repeat (split_if; exec); try reflexivity; try discriminate.
  - intros [[[p0 p1] l0] l1]. reflexivity.
  - intros m es. apply run_break_before_make.
Qed.

Lemma sine_break_before_make_witness :
  let m := st (run (start_sine_low ++ [HwTmr1]) boot) in
  filter bridge_write (evs (ISR m)) = coast_writes ++ route_writes 1.
Proof.
  assert (H : sine_tick_pending (st (run (start_sine_low ++ [HwTmr1]) boot)))
    by (repeat split; reflexivity).
  exact (proj1 sine_break_before_make _ H).
Defined.

(** ** Coast on zero amplitude *)

Lemma amp_scale_zero (top : Z) : amp_scale top 0 = 0.
Proof.
  unfold amp_scale, u32, u16. rewrite (Z.mod_small 0) by lia.
  rewrite Z.mul_0_r. reflexivity.
Qed.

Ltac zero_commit :=
  match goal with
  | H : duty_pct_of ?d = 0 |- _ =>
      repeat match goal with
             | E : context [duty_pct_of d] |- _ =>
                 lazymatch E with H => fail | _ => rewrite H in E end
             end;
      rewrite ?H
  end.

Ltac close_silent Hs :=
  first
    [ exact Hs
    | left; reflexivity
    | left; apply truthy_false; assumption
    | right; zero_commit; try discriminate; apply amp_scale_zero ].

(** A step that leaves the committed intensity at 0 keeps the sine engine
    silent. *)
Lemma fire_silent (e : stimulus) (m : mem) :
  silent m -> st (fire e m) duty_pct = 0 -> silent (st (fire e m)).
Proof.
  unfold silent. intros Hs.
  destruct e; [exact (fun _ => Hs) | exact (fun _ => Hs) | exact (fun _ => Hs) | | ].
  - cbv beta iota delta [fire]. destruct (irq_pending m); [|exact (fun _ => Hs)].
    run_all; intros Hd; close_silent Hs.
  - run_all; intros Hd; try exact Hs;
      destruct (getColor32 (m duty5_raw)) as [[r g] b]; run_all; exact Hs.
Qed.

Lemma run_silent (es : list stimulus) (m : mem) :
  silent m -> stays_silent es m -> silent (st (run es m)).
Proof.
  revert m. induction es as [|e es IH]; intros m Hs Hz.
  - exact Hs.
  - destruct Hz as [Hd Hz]. rewrite run_cons_st.
    apply IH; [apply fire_silent; assumption | exact Hz].
Qed.

(** The commit of a START whose intensity is 0 silences the sine engine. *)
Lemma commit_silent (b : Z) (m : mem) :
  byte_pending b m -> 128 <= b < 256 ->
  (m state =? 0) = false -> (m state =? 1) = false ->
  st (ISR m) duty_pct = 0 -> silent (st (ISR m)).
Proof.
  intros (Hrc & Hfe & Hb) Hrange H0 H1. unfold silent.
  assert (Hmsb : (Z.shiftr (m RC1REG) 7 =? 0) = false).
  { rewrite Hb. apply Z.eqb_neq. rewrite Z.shiftr_div_pow2 by lia.
    change (2 ^ 7) with 128. intros Hq.
    apply Z.div_small_iff in Hq; lia. }
  assert (Hs : True) by exact I.
  run_all; intros Hd; close_silent Hs.
Qed.

(** A sine tick in a silent state. *)
Lemma silent_tick (m : mem) :
  silent m ->
  truthy (m RCIF) = false -> truthy (m TMR1IF) = true ->
  (forall v, In v (duty_writes (evs (ISR m))) -> v = 0) /\
  (truthy (m wave_mode) = true ->
     filter bridge_write (evs (ISR m)) = coast_writes /\
     duty_writes (evs (ISR m)) = [0; 0] /\
     pwm10_of (st (ISR m)) = 0).
Proof.
  intros Hs Hrc Ht1. unfold pwm10_of.
  destruct (truthy (m wave_mode)) eqn:Hw.
  - destruct Hs as [Hs | Hs]; [apply truthy_true in Hw; contradiction|].
    assert (Hsc : truthy (m scale) = false) by (apply truthy_false; exact Hs).
    exec. rewrite Hrc. exec. rewrite Ht1. exec. rewrite Hw. cbn [negb]. exec.
    rewrite Hsc. cbn [negb]. exec. split.
    + cbn. intros v [<- | [<- | []]]; reflexivity.
    + intros _. repeat split.
  - exec. rewrite Hrc. exec. rewrite Ht1. exec. rewrite Hw. cbn [negb]. exec.
    split; [intros v [] | discriminate].
Qed.

(** C7. After the commit of a START whose intensity is 0, and for as long
    as the committed intensity stays 0 (whatever bytes, timer events and
    main-loop passes follow), every sine tick writes only zeros to the duty
    register; when the sine waveform is selected the tick coasts the bridge,
    stores 0 in both halves of the duty register and routes nothing. *)
Theorem sine_coast_on_zero (m : mem) (b : Z) (es : list stimulus) :
  byte_pending b m -> 128 <= b < 256 ->
  (m state =? 0) = false -> (m state =? 1) = false ->
  st (ISR m) duty_pct = 0 ->
  stays_silent es (st (ISR m)) ->
  let m' := st (run es (st (ISR m))) in
  truthy (m' RCIF) = false -> truthy (m' TMR1IF) = true ->
  (forall v, In v (duty_writes (evs (ISR m'))) -> v = 0) /\
  (truthy (m' wave_mode) = true ->
     filter bridge_write (evs (ISR m')) = coast_writes /\
     duty_writes (evs (ISR m')) = [0; 0] /\
     pwm10_of (st (ISR m')) = 0).
Proof.
  intros Hp Hb H0 H1 Hd Hz m' Hrc Ht1.
  apply silent_tick; try assumption.
  apply run_silent; [|exact Hz].
  apply (commit_silent b); assumption.
Qed.

Lemma sine_coast_on_zero_witness :
  let m := st (run (receive 1 ++ receive 128 ++ [HwRx 136 false false]) boot) in
  let m' := st (run [HwTmr1; Irq; HwTmr1] (st (ISR m))) in
  duty_writes (evs (ISR m')) = [0; 0] /\ pwm10_of (st (ISR m')) = 0.
Proof.
  pose (m := st (run (receive 1 ++ receive 128 ++ [HwRx 136 false false]) boot)).
  assert (Hp : byte_pending 136 m) by (repeat split; reflexivity).
  assert (Hr : 128 <= 136 < 256) by lia.
  assert (Hz : stays_silent [HwTmr1; Irq; HwTmr1] (st (ISR m)))
    by (simpl; repeat split; reflexivity).
  pose proof (sine_coast_on_zero m 136 [HwTmr1; Irq; HwTmr1]
                Hp Hr eq_refl eq_refl eq_refl Hz eq_refl eq_refl) as [_ Hw].
  destruct (Hw eq_refl) as (_ & Hdw & Hpw).
  split; assumption.
Defined.

(** ** Reachable states *)

Lemma land31_range (x : Z) : 0 <= Z.land x 31 <= 31.
Proof.
  change 31 with (Z.ones 5) at 1 2. rewrite Z.land_ones by lia.
  pose proof (Z.mod_pos_bound x (2 ^ 5) eq_refl).
  change (2 ^ 5) with 32 in *. lia.
Qed.

Lemma u8_small (x : Z) : 0 <= x < 256 -> u8 x = x.
Proof. intros H. apply Z.mod_small, H. Qed.

Lemma u8_land31_range (x : Z) : 0 <= u8 (Z.land x 31) <= 31.
Proof.
  pose proof (land31_range x). rewrite u8_small; lia.
Qed.

Lemma scale_values (d : Z) :
  0 <= d <= 31 ->
  amp_scale (carrier_top 199) (duty_pct_of d) = 0 \/
  24 <= amp_scale (carrier_top 199) (duty_pct_of d) <= 767.
Proof.
  intros Hd.
  set (chk := fun d => let sc := amp_scale (carrier_top 199) (duty_pct_of d) in
                       (sc =? 0) || ((24 <=? sc) && (sc <=? 767))).
  assert (Hall : forallb chk (zrange 0 32) = true) by (vm_compute; reflexivity).
  pose proof (forall_zrange chk 0 32 Hall d ltac:(lia)) as H.
  unfold chk in H. cbv zeta in H. apply orb_true_iff in H. destruct H as [H|H].
  - left. apply Z.eqb_eq, H.
  - right. apply andb_true_iff in H. destruct H as [H1 H2].
    apply Z.leb_le in H1. apply Z.leb_le in H2. lia.
Qed.

Ltac inv_close :=
  match goal with
  | E : (duty_pct_of ?d >? 100) = true |- _ =>
      exfalso;
      let B := fresh "B" in
      assert (B : 0 <= duty_pct_of d <= 96)
        by (apply duty_pct_of_bound; assumption);
      apply Z.gtb_lt in E; lia
  | |- _ <= _ <= _ => first
      [ assumption
      | lia
      | apply u8_land31_range
      | apply duty_pct_of_bound; assumption ]
  | |- _ /\ _ => split; inv_close
  | |- _ => first
      [ assumption
      | reflexivity
      | lia
      | apply scale_values; assumption
      | intros; congruence ]
  end.

Lemma fire_inv (e : stimulus) (m : mem) :
  protocol_inv m -> protocol_inv (st (fire e m)).
Proof.
  unfold protocol_inv. intros (H5 & Hp & Hw & Hs).
  destruct e.
  - run_all. inv_close.
  - run_all. inv_close.
  - run_all. inv_close.
  - cbv beta iota delta [fire]. destruct (irq_pending m); [|exec; inv_close].
    run_all; inv_close.
  - run_all; try inv_close;
      destruct (getColor32 (m duty5_raw)) as [[r g] b]; run_all; inv_close.
Qed.

Lemma boot_inv : protocol_inv boot.
Proof. unfold protocol_inv. vm_compute. intuition discriminate. Qed.

Lemma reachable_inv (m : mem) : reachable m -> protocol_inv m.
Proof.
  induction 1 as [|e m Hr IH]; [apply boot_inv | apply fire_inv, IH].
Qed.

Lemma reachable_run (es : list stimulus) (m : mem) :
  reachable m -> reachable (st (run es m)).
Proof.
  revert m. induction es as [|e es IH]; intros m Hr.
  - exact Hr.
  - rewrite run_cons_st. apply IH. constructor. exact Hr.
Qed.

(** The commit stores the formula's value, whatever the waveform bit. *)
Lemma commit_duty_pct (b : Z) (m : mem) :
  byte_pending b m -> 128 <= b < 256 ->
  (m state =? 0) = false -> (m state =? 1) = false ->
  st (ISR m) duty_pct = duty_pct_of (m duty5_raw) /\
  st (ISR m) wave_mode = Z.land (Z.shiftr (Z.land b 127) 3) 1.
Proof.
  intros (Hrc & Hfe & Hb) Hrange H0 H1.
  assert (Hmsb : (Z.shiftr (m RC1REG) 7 =? 0) = false).
  { rewrite Hb. apply Z.eqb_neq. rewrite Z.shiftr_div_pow2 by lia.
    change (2 ^ 7) with 128. intros Hq.
    apply Z.div_small_iff in Hq; lia. }
  rewrite <- Hb. run_all; split; reflexivity.
Qed.

(** ** The duty register of a sine tick *)

Lemma next_phase_range (m : mem) : 0 <= next_phase m < 64.
Proof.
  unfold next_phase, SINE_LEN. cbv zeta.
  pose proof (Z.mod_pos_bound (m phase_idx + 1) 256 eq_refl) as Hb.
  fold (u8 (m phase_idx + 1)) in Hb.
  destruct (u8 (m phase_idx + 1) >=? 64) eqn:E; [lia|].
  rewrite Z.geb_leb in E. apply Z.leb_gt in E. lia.
Qed.

Lemma sample_facts (i : Z) :
  0 <= i < 64 ->
  u16 (if idx SINE64_8 i >=? 0 then idx SINE64_8 i else - idx SINE64_8 i)
    = Z.abs (idx SINE64_8 i) /\
  (Z.abs (idx SINE64_8 i) = 0 \/ 12 <= Z.abs (idx SINE64_8 i) <= 127).
Proof.
  intros Hi.
  set (chk := fun i =>
    let s := idx SINE64_8 i in
    (u16 (if s >=? 0 then s else - s) =? Z.abs s) &&
    ((Z.abs s =? 0) || ((12 <=? Z.abs s) && (Z.abs s <=? 127)))).
  assert (Hall : forallb chk (zrange 0 64) = true) by (vm_compute; reflexivity).
  pose proof (forall_zrange chk 0 64 Hall i ltac:(lia)) as H.
  unfold chk in H. cbv zeta in H.
  apply andb_true_iff in H. destruct H as [H1 H2]. split.
  - apply Z.eqb_eq, H1.
  - apply orb_true_iff in H2. destruct H2 as [H2|H2].
    + left. apply Z.eqb_eq, H2.
    + right. apply andb_true_iff in H2. destruct H2 as [Ha Hb].
      apply Z.leb_le in Ha. apply Z.leb_le in Hb. lia.
Qed.

Lemma round_div_128 (a : Z) : round_div a 128 = (a + 64) / 128.
Proof.
  unfold round_div. replace (2 * a + 128) with (2 * (a + 64)) by lia.
  apply Z.div_mul_cancel_l; lia.
Qed.

Lemma pwm10_roundtrip (v : Z) :
  0 <= v < 1024 ->
  4 * u8 (Z.shiftr v 2) + Z.shiftr (u8 (Z.shiftl (Z.land v 3) 6)) 6 = v.
Proof.
  intros Hv.
  set (chk := fun v =>
    4 * u8 (Z.shiftr v 2) + Z.shiftr (u8 (Z.shiftl (Z.land v 3) 6)) 6 =? v).
  assert (Hall : forallb chk (zrange 0 1024) = true) by (vm_compute; reflexivity).
  apply Z.eqb_eq. exact (forall_zrange chk 0 1024 Hall v ltac:(lia)).
Qed.

Lemma sine_tick_pwm (m : mem) :
  sine_tick_pending m -> truthy (m scale) = true ->
  let v := sine_duty (next_sample m) (m scale) (m PR2) in
  st (ISR m) CCPR1H = u8 (Z.shiftr v 2) /\
  st (ISR m) CCPR1L = u8 (Z.shiftl (Z.land v 3) 6) /\
  duty_writes (evs (ISR m)) = [st (ISR m) CCPR1H; st (ISR m) CCPR1L].
Proof.
  intros (Hrc & Ht1 & Hw) Hsc.
  unfold next_sample, next_phase. cbv zeta.
  assert (Hw' : negb (truthy (m wave_mode)) = false) by (rewrite Hw; reflexivity).
  assert (Hsc' : negb (truthy (m scale)) = false) by (rewrite Hsc; reflexivity).
  exec. rewrite Hrc. exec. rewrite Ht1. exec. rewrite Hw'. exec.
  rewrite Hsc'. exec.
  repeat (split_if; exec); repeat split.
Qed.

Lemma carrier_top_range (pr2 : Z) :
  0 <= pr2 < 256 -> carrier_top pr2 = 4 * pr2 + 3 /\ 3 <= carrier_top pr2 <= 1023.
Proof.
  intros H. unfold carrier_top, u16.
  rewrite (Z.mod_small pr2) by lia.
  rewrite (Z.mod_small (pr2 + 1)) by lia.
  rewrite Z.mod_small by lia. lia.
Qed.

Lemma sine_duty_clamped (s8 sc pr2 : Z) :
  -128 <= s8 <= 127 -> 0 <= sc < 65536 -> 0 <= pr2 < 256 ->
  sine_duty s8 sc pr2 = carrier_top pr2 - spec_duty_fwd (carrier_top pr2) sc s8 /\
  0 <= spec_duty_fwd (carrier_top pr2) sc s8 <= carrier_top pr2.
Proof.
  intros Hs Hsc Hpr.
  destruct (carrier_top_range pr2 Hpr) as [_ Htop].
  unfold sine_duty, spec_duty_fwd. rewrite round_div_128. cbv zeta.
  assert (Hmag : u16 (if s8 >=? 0 then s8 else - s8) = Z.abs s8).
  { unfold u16. destruct (s8 >=? 0) eqn:E; rewrite Z.geb_leb in E;
      [apply Z.leb_le in E | apply Z.leb_gt in E]; rewrite Z.mod_small by lia; lia. }
  rewrite Hmag. set (mag := Z.abs s8).
  assert (Hm : 0 <= mag <= 128) by (unfold mag; lia).
  assert (Hprod : 0 <= sc * mag <= 65535 * 128) by nia.
  unfold u32. rewrite (Z.mod_small sc) by lia. rewrite (Z.mod_small mag) by lia.
  rewrite (Z.mod_small (sc * mag)) by lia.
  rewrite (Z.mod_small (sc * mag + 64)) by lia.
  rewrite Z.shiftr_div_pow2 by lia. change (2 ^ 7) with 128.
  set (d := (sc * mag + 64) / 128).
  assert (Hd : 0 <= d <= 65535).
  { unfold d. split.
    - apply Z.div_pos; lia.
    - replace 65535 with ((65535 * 128 + 64) / 128) by reflexivity.
      apply Z.div_le_mono; lia. }
  unfold u16. rewrite (Z.mod_small d) by lia.
  destruct (d >=? carrier_top pr2) eqn:E; rewrite Z.geb_leb in E.
  - apply Z.leb_le in E. rewrite Z.min_l by lia. rewrite Z.sub_diag. split; [reflexivity | lia].
  - apply Z.leb_gt in E. rewrite Z.min_r by lia.
    rewrite Z.mod_small by lia. split; [reflexivity | lia].
Qed.

(** C8 (amended). On each sine tick with a nonzero amplitude scale the duty
    register pair is programmed, once, with the 10-bit value
    [carrier_top - duty_fwd], where [duty_fwd] is the amplitude scale times
    the sample magnitude over 128, rounded to nearest and clamped to
    [carrier_top].  There is no minimum-drive floor: whatever 16-bit scale
    and carrier period, every nonzero [duty_fwd] leaves the register below
    [carrier_top]. *)
Theorem sine_duty_register (m : mem) :
  sine_tick_pending m -> truthy (m scale) = true ->
  0 <= m scale < 65536 -> 0 <= m PR2 < 256 ->
  let top := carrier_top (m PR2) in
  let duty_fwd := spec_duty_fwd top (m scale) (next_sample m) in
  pwm10_of (st (ISR m)) = top - duty_fwd /\
  (0 < duty_fwd -> pwm10_of (st (ISR m)) < top) /\
  duty_writes (evs (ISR m)) = [st (ISR m) CCPR1H; st (ISR m) CCPR1L].
Proof.
  intros Hp Hsc Hs Hpr. cbv zeta.
  destruct (sample_facts (next_phase m) (next_phase_range m)) as [_ Hrange].
  fold (next_sample m) in Hrange.
  destruct (sine_duty_clamped (next_sample m) (m scale) (m PR2)
              ltac:(lia) Hs Hpr) as [Heq Hb].
  destruct (carrier_top_range (m PR2) Hpr) as [_ Htop].
  destruct (sine_tick_pwm m Hp Hsc) as (HH & HL & Hdw). cbv zeta in HH, HL.
  assert (Hv : pwm10_of (st (ISR m)) =
               carrier_top (m PR2) -
               spec_duty_fwd (carrier_top (m PR2)) (m scale) (next_sample m)).
  { unfold pwm10_of. rewrite HH, HL, pwm10_roundtrip by lia. exact Heq. }
  split; [exact Hv | split; [lia | exact Hdw]].
Qed.

Lemma sine_duty_register_witness :
  let m := st (run (start_sine_low ++ [HwTmr1]) boot) in
  pwm10_of (st (ISR m)) = 797.
Proof.
  intros m.
  assert (Hp : sine_tick_pending m) by (repeat split; reflexivity).
  assert (Hs : 0 <= m scale < 65536) by (vm_compute; split; [discriminate | reflexivity]).
  assert (Hpr : 0 <= m PR2 < 256) by (vm_compute; split; [discriminate | reflexivity]).
  exact (proj1 (sine_duty_register m Hp eq_refl Hs Hpr)).
Defined.

(** C8, as first stated, fails on the floor.  After a sine START with duty
    code 1 the amplitude scale is 24, the first tick reads the sample 12 and
    [duty_fwd] is 2, the floor itself: the claim has the register at the
    full scale 799, the tick programs 797.  The tick never reads
    [MIN_DRIVE_TKS]: with a scale of 8 [duty_fwd] is 1 and the value is
    798. *)
Lemma sine_floor_counterexample :
  let m := st (run (start_sine_low ++ [HwTmr1]) boot) in
  let top := carrier_top (m PR2) in
  truthy (m wave_mode) = true /\ m scale = 24 /\ next_sample m = 12 /\ top = 799 /\
  spec_duty_fwd top (m scale) (next_sample m) = 2 /\
  spec_duty_register top (m scale) (next_sample m) = 799 /\
  pwm10_of (st (ISR m)) = 797 /\
  spec_duty_fwd 799 8 12 = 1 /\ sine_duty 12 8 199 = 798.
Proof.
  vm_compute. repeat split.
Qed.

(** ** Duty mapper contract and range *)

(** C6. The duty mapper sends code 0 to 0, is non-decreasing over the codes
    0..31 (and from each code to the next), and sends code 31 to at most
    100.  This holds for the formula of this firmware, which the commit
    applies whatever the waveform bit of the second data byte, and for the
    look-up table of the LUT variant. *)
Theorem duty_mapper_contract :
  (duty_pct_of 0 = 0 /\
   (forall a b, 0 <= a -> a <= b -> b <= 31 -> duty_pct_of a <= duty_pct_of b) /\
   (forall d, 0 <= d -> d <= 31 -> duty_pct_of d <= duty_pct_of (d + 1)) /\
   duty_pct_of 31 <= 100) /\
  (lut_duty 0 = 0 /\
   (forall a b, 0 <= a -> a <= b -> b <= 31 -> lut_duty a <= lut_duty b) /\
   lut_duty 31 <= 100) /\
  (forall b m, byte_pending b m -> 128 <= b < 256 ->
     (m state =? 0) = false -> (m state =? 1) = false ->
     st (ISR m) duty_pct = duty_pct_of (m duty5_raw)).
Proof.
  split; [|split].
  - split; [reflexivity|]. split; [exact duty_pct_of_mono|]. split.
    + intros d H0 H31. rewrite !duty_pct_of_div by lia.
      rewrite !Z.mod_small.
      * apply Z.div_le_mono; lia.
      * split; [apply Z.div_pos; lia | apply Z.div_lt_upper_bound; lia].
      * split; [apply Z.div_pos; lia | apply Z.div_lt_upper_bound; lia].
    + vm_compute. discriminate.
  - split; [reflexivity|]. split; [exact lut_duty_mono|].
    vm_compute. discriminate.
  - intros b m Hp Hb H0 H1. exact (proj1 (commit_duty_pct b m Hp Hb H0 H1)).
Qed.

Lemma duty_mapper_contract_witness :
  duty_pct_of 10 <= duty_pct_of 11 /\ lut_duty 10 <= lut_duty 11 /\
  (let m := st (run (receive 1 ++ receive 138 ++ [HwRx 131 false false]) boot) in
   st (ISR m) duty_pct = 31).
Proof.
  destruct duty_mapper_contract as ((_ & Hm & _) & (_ & Hl & _) & Hc).
  split; [apply Hm; lia | split; [apply Hl; lia|]].
  intros m.
  assert (Hp : byte_pending 131 m) by (repeat split; reflexivity).
  rewrite (Hc 131 m Hp ltac:(lia) eq_refl eq_refl). reflexivity.
Defined.

(** C10. For every 5-bit duty code the committed intensity is
    [floor (code * 100 / 32)], at most 96, so 100 is never committed and
    [100 + duty_pct] is at most 196: the 8-bit sum in the window comparison
    of [square_processing] never wraps.  This holds in every state the
    firmware can reach. *)
Theorem duty_pct_range :
  (forall d, 0 <= d -> d <= 31 ->
     duty_pct_of d = d * 100 / 32 /\
     duty_pct_of d <= 96 /\
     100 + duty_pct_of d <= 196 /\
     u8 (100 + duty_pct_of d) = 100 + duty_pct_of d) /\
  (forall m, reachable m ->
     0 <= m duty_pct <= 96 /\
     u8 (100 + m duty_pct) = 100 + m duty_pct /\
     100 + m duty_pct <= 196 /\
     forall i, window_on i (m duty_pct) =
               (i <? m duty_pct) || ((i >=? 100) && (i <? 100 + m duty_pct))).
Proof.
  split.
  - intros d H0 H31.
    pose proof (duty_pct_of_bound d (conj H0 H31)) as Hb.
    split; [apply duty_pct_of_floor; lia|].
    repeat split; try lia. apply u8_small. lia.
  - intros m Hr. destruct (reachable_inv m Hr) as (_ & Hp & _).
    assert (Hu : u8 (100 + m duty_pct) = 100 + m duty_pct)
      by (apply u8_small; lia).
    repeat split; try lia; try exact Hu.
    intros i. unfold window_on. rewrite Hu. reflexivity.
Qed.

Lemma duty_pct_range_witness :
  duty_pct_of 31 = 96 /\
  (let m := st (run (receive 1 ++ receive 159 ++ receive 128) boot) in
   m duty_pct = 96 /\ u8 (100 + m duty_pct) = 196).
Proof.
  destruct duty_pct_range as [Hd Hm].
  split.
  - rewrite (proj1 (Hd 31 ltac:(lia) ltac:(lia))). reflexivity.
  - intros m.
    assert (Hr : reachable m) by (apply reachable_run, reach_boot).
    destruct (Hm m Hr) as (_ & Hu & _).
    split; [reflexivity | rewrite Hu; reflexivity].
Defined.

(** ** Square window *)

Lemma window_tick_index (m : mem) :
  truthy (m wave_mode) = false ->
  st (ISR_window_tick m) index200 = next_index (m index200) /\
  st (ISR_window_tick m) duty_pct = m duty_pct /\
  st (ISR_window_tick m) wave_mode = m wave_mode.
Proof.
  intros Hw. unfold next_index. cbv zeta.
  assert (Hw' : negb (truthy (m wave_mode)) = true) by (rewrite Hw; reflexivity).
  exec. rewrite Hw'. exec.
  destruct (u8 (m index200 + 1) =? 200); exec; repeat split; reflexivity.
Qed.

Lemma window_ticks_visited (n : nat) (m : mem) :
  truthy (m wave_mode) = false ->
  window_ticks n m = visited n (m index200).
Proof.
  revert m. induction n as [|n IH]; intros m Hw.
  - reflexivity.
  - destruct (window_tick_index m Hw) as (Hi & _ & Hw').
    cbn [window_ticks visited]. cbv zeta.
    rewrite IH by (rewrite Hw'; exact Hw).
    rewrite Hi. reflexivity.
Qed.

Lemma square_processing_reads_window (m : mem) :
  window_on (m index200) (m duty_pct) = false ->
  filter bridge_write (evs (square_processing m)) = [] /\
  (forall v, In v (duty_writes (evs (square_processing m))) -> v = 0).
Proof.
  intros Hoff. exec. rewrite Hoff. exec.
  repeat (split_if; exec); (split; [reflexivity|]); cbn;
    intros v Hv; repeat (destruct Hv as [Hv | Hv]; [now subst|]); contradiction.
Qed.

Lemma on_count_app (d : Z) (l1 l2 : list Z) :
  on_count d (l1 ++ l2) = on_count d l1 + on_count d l2.
Proof.
  unfold on_count. rewrite filter_app, length_app. lia.
Qed.

(** 200 consecutive ticks go once through every position: the tail of the
    cycle after [p], then its head up to [p]. *)
Lemma visited_rotation (p : Z) :
  0 <= p < 200 ->
  visited 200 p =
    zrange (p + 1) (Z.to_nat (199 - p)) ++ zrange 0 (Z.to_nat (p + 1)) /\
  positions =
    zrange 0 (Z.to_nat (p + 1)) ++ zrange (p + 1) (Z.to_nat (199 - p)).
Proof.
  intros Hp.
  set (same := fun a b : list Z =>
                 if list_eq_dec Z.eq_dec a b then true else false).
  set (chk := fun p =>
    same (visited 200 p)
         (zrange (p + 1) (Z.to_nat (199 - p)) ++ zrange 0 (Z.to_nat (p + 1))) &&
    same positions
         (zrange 0 (Z.to_nat (p + 1)) ++ zrange (p + 1) (Z.to_nat (199 - p)))).
  assert (Hall : forallb chk (zrange 0 200) = true) by (vm_compute; reflexivity).
  pose proof (forall_zrange chk 0 200 Hall p ltac:(lia)) as H.
  unfold chk, same in H. clear Hall chk same.
  apply andb_true_iff in H. destruct H as [H1 H2].
  destruct (list_eq_dec Z.eq_dec (visited 200 p) _) as [E1|]; [|discriminate].
  destruct (list_eq_dec Z.eq_dec positions _) as [E2|]; [|discriminate].
  split; assumption.
Qed.

(** C4. For a committed intensity [d] between 0 and 100 the window
    predicate is on at exactly [d] positions of each half of the cycle,
    hence at [2 d] of the 200 positions and off at the other [200 - 2 d];
    and the 200 positions that 200 consecutive window ticks of the ISR go
    through, from any position, carry exactly [2 d] on positions. *)
Theorem square_window_symmetry (d : Z) :
  0 <= d -> d <= 100 ->
  on_count d first_half = d /\
  on_count d second_half = d /\
  on_count d positions = 2 * d /\
  off_count d positions = 200 - 2 * d /\
  (forall m, truthy (m wave_mode) = false -> 0 <= m index200 < 200 ->
     on_count d (window_ticks 200 m) = 2 * d).
Proof.
  intros H0 H100.
  set (chk := fun d =>
    (on_count d first_half =? d) && (on_count d second_half =? d) &&
    (on_count d positions =? 2 * d) && (off_count d positions =? 200 - 2 * d)).
  assert (Hall : forallb chk (zrange 0 101) = true) by (vm_compute; reflexivity).
  pose proof (forall_zrange chk 0 101 Hall d ltac:(lia)) as H.
  unfold chk in H. clear Hall chk.
  repeat (apply andb_true_iff in H; destruct H as [H ?]).
  assert (Hpos : on_count d positions = 2 * d) by (apply Z.eqb_eq; assumption).
  repeat split; try (apply Z.eqb_eq; assumption).
  intros m Hw Hp. rewrite window_ticks_visited by exact Hw.
  destruct (visited_rotation (m index200) Hp) as [Hv Hsplit].
  rewrite Hv, on_count_app, Z.add_comm, <- on_count_app, <- Hsplit.
  exact Hpos.
Qed.

Lemma square_window_symmetry_witness :
  on_count 31 positions = 62 /\ off_count 31 positions = 138.
Proof.
  destruct (square_window_symmetry 31) as (_ & _ & Hon & Hoff & _); [lia | lia |].
  split; assumption.
Defined.

(** * Further properties of the firmware *)

(** ** Duty register and address byte encodings *)

Lemma pwm10_fields (v : Z) :
  0 <= v ->
  u8 (Z.shiftr v 2) = (v / 4) mod 256 /\
  u8 (Z.shiftl (Z.land v 3) 6) = 64 * (v mod 4).
Proof.
  intros Hv. unfold u8. split.
  - rewrite Z.shiftr_div_pow2 by lia. reflexivity.
  - change 3 with (Z.ones 2). rewrite Z.land_ones by lia.
    rewrite Z.shiftl_mul_pow2 by lia. change (2 ^ 2) with 4. change (2 ^ 6) with 64.
    pose proof (Z.mod_pos_bound v 4 eq_refl).
    rewrite Z.mod_small by lia. lia.
Qed.

(** X1. [set_pwm10] stores the low ten bits of its argument: read back from
    the register pair the value is the argument modulo 1024, the six low
    bits of CCPR1L are zero, and no other location changes. *)
Theorem set_pwm10_roundtrip (v : Z) (m : mem) :
  0 <= v < 65536 ->
  pwm10_of (st (set_pwm10 v m)) = v mod 1024 /\
  st (set_pwm10 v m) CCPR1L mod 64 = 0 /\
  0 <= st (set_pwm10 v m) CCPR1H < 256 /\
  (forall l, l <> CCPR1H -> l <> CCPR1L -> st (set_pwm10 v m) l = m l).
Proof.
  intros Hv. unfold pwm10_of. exec.
  destruct (pwm10_fields v ltac:(lia)) as [HH HL]. rewrite HH, HL.
  pose proof (Z.mod_pos_bound v 4 eq_refl) as H4.
  pose proof (Z.mod_pos_bound (v / 4) 256 eq_refl) as H256.
  repeat split; try lia.
  - rewrite Z.shiftr_div_pow2 by lia. change (2 ^ 6) with 64.
    rewrite (Z.mul_comm 64 (v mod 4)), Z.div_mul by lia.
    change 1024 with (4 * 256). rewrite Z.rem_mul_r by lia. lia.
  - rewrite (Z.mul_comm 64 (v mod 4)). apply Z.mod_mul. lia.
  - intros l H1 H2. destruct l; try reflexivity; congruence.
Qed.

Lemma set_pwm10_roundtrip_witness : pwm10_of (st (set_pwm10 797 boot)) = 797.
Proof.
  exact (proj1 (set_pwm10_roundtrip 797 boot ltac:(lia))).
Defined.


(** X2. [make_addr_byte] builds an address byte (bit 7 clear) whose fields
    are the address modulo 64 and the start flag modulo 2, whatever bytes it
    is given; rebuilding an address byte from its own fields gives it back. *)
Theorem make_addr_byte_roundtrip :
  (forall start addr, 0 <= start < 256 -> 0 <= addr < 256 ->
     0 <= make_addr_byte start addr < 128 /\
     chain_address (make_addr_byte start addr) = addr mod 64 /\
     start_flag (make_addr_byte start addr) = start mod 2) /\
  (forall b, 0 <= b < 128 ->
     make_addr_byte (start_flag b) (chain_address b) = b).
Proof.
  split.
  - intros start addr Hs Ha.
    set (chk := fun s => forallb (fun a =>
      let b := make_addr_byte s a in
      (0 <=? b) && (b <? 128) && (chain_address b =? a mod 64) &&
      (start_flag b =? s mod 2)) (zrange 0 256)).
    assert (Hall : forallb chk (zrange 0 256) = true) by (vm_compute; reflexivity).
    pose proof (forall_zrange chk 0 256 Hall start ltac:(lia)) as H.
    unfold chk in H. clear Hall chk.
    pose proof (forall_zrange _ 0 256 H addr ltac:(lia)) as H'.
    cbv beta zeta in H'.
    repeat (apply andb_true_iff in H'; destruct H' as [H' ?]).
    repeat split; try (apply Z.eqb_eq; assumption);
      try (apply Z.leb_le; assumption); try (apply Z.ltb_lt; assumption).
  - intros b Hb.
    set (chk := fun b => make_addr_byte (start_flag b) (chain_address b) =? b).
    assert (Hall : forallb chk (zrange 0 128) = true) by (vm_compute; reflexivity).
    apply Z.eqb_eq. exact (forall_zrange chk 0 128 Hall b ltac:(lia)).
Qed.

Lemma make_addr_byte_roundtrip_witness :
  chain_address (make_addr_byte 1 2) = 2 /\
  make_addr_byte (start_flag 5) (chain_address 5) = 5.
Proof.
  destruct make_addr_byte_roundtrip as [He Hd]. split.
  - exact (proj1 (proj2 (He 1 2 ltac:(lia) ltac:(lia)))).
  - exact (Hd 5 ltac:(lia)).
Defined.


(** ** Protocol: relay, resynchronisation, START frame *)

Lemma rx_load_pending (b : Z) (m : mem) :
  0 <= b < 256 -> byte_pending b (rx_load b m).
Proof.
  intros Hb. unfold byte_pending, rx_load. exec.
  repeat split. apply u8_small. exact Hb.
Qed.

Lemma receive_served (b : Z) (m : mem) :
  rx_enabled m ->
  st (run (receive b) m) = st (ISR (rx_load b m)) /\
  evs (run (receive b) m) = evs (ISR (rx_load b m)).
Proof.
  intros (Hg & Hp & Hr). unfold receive.
  rewrite !run_cons_st, !run_cons_evs. fold (rx_load b m).
  assert (Hpen : irq_pending (rx_load b m) = true).
  { unfold irq_pending, rx_load. exec. rewrite Hg, Hp, Hr. reflexivity. }
  cbv beta iota delta [fire]. rewrite Hpen. cbn [run skip ret st evs].
  split; [reflexivity | apply app_nil_r].
Qed.

(** The ISR never writes the interrupt enables of the receiver. *)
Lemma ISR_keeps_rx_enabled (m : mem) : rx_enabled m -> rx_enabled (st (ISR m)).
Proof.
  unfold rx_enabled. intros H. run_all; exact H.
Qed.

Lemma rx_load_enabled (b : Z) (m : mem) : rx_enabled m -> rx_enabled (rx_load b m).
Proof. unfold rx_enabled, rx_load. exec. exact (fun H => H). Qed.

Lemma data_byte_msb (b : Z) : 128 <= b < 256 -> (Z.shiftr b 7 =? 0) = false.
Proof.
  intros Hb. apply Z.eqb_neq. rewrite Z.shiftr_div_pow2 by lia.
  change (2 ^ 7) with 128. intros Hq. apply Z.div_small_iff in Hq; lia.
Qed.

(** X3. A data byte that arrives while the stage is 0 is retransmitted
    unchanged, once, and only the receive bookkeeping and the transmit
    register change. *)
Theorem data_byte_relayed (b : Z) (m : mem) :
  byte_pending b m -> 128 <= b < 256 -> m state = 0 ->
  tx_bytes (evs (ISR m)) = [b] /\
  (forall l, l <> RCIF -> l <> CREN -> l <> buffer -> l <> TX1REG ->
             st (ISR m) l = m l).
Proof.
  intros (Hrc & Hfe & Hb) Hrange Hs.
  assert (Hmsb : (Z.shiftr (m RC1REG) 7 =? 0) = false)
    by (rewrite Hb; apply data_byte_msb, Hrange).
  assert (Hs0 : (m state =? 0) = true) by (rewrite Hs; reflexivity).
  run_all; rewrite Hb; (split; [reflexivity|]);
    intros l H1 H2 H3 H4; destruct l; try reflexivity; congruence.
Qed.

Lemma data_byte_relayed_witness :
  tx_bytes (evs (ISR (rx_load 200 boot))) = [200].
Proof.
  assert (Hp : byte_pending 200 (rx_load 200 boot)) by (repeat split; reflexivity).
  exact (proj1 (data_byte_relayed 200 _ Hp ltac:(lia) eq_refl)).
Defined.


Lemma land1_cases (x : Z) : Z.land x 1 = 0 \/ Z.land x 1 = 1.
Proof.
  pose proof (Z.land_ones x 1 ltac:(lia)) as H.
  change (Z.ones 1) with 1 in H. change (2 ^ 1) with 2 in H.
  pose proof (Z.mod_pos_bound x 2 eq_refl). lia.
Qed.

(** X4. An address byte sets the stage from its own content alone, whatever
    the stage was: 1 for a START to this node, 0 otherwise.  Waveform and
    frequency are kept, and the committed intensity is cleared only by a
    STOP to this node: a command cut short leaves the running one alone. *)
Theorem address_byte_resynchronises (b : Z) (m : mem) :
  byte_pending b m -> 0 <= b < 128 ->
  st (ISR m) state =
    (if (chain_address b =? 0) && (start_flag b =? 1) then 1 else 0) /\
  st (ISR m) wave_mode = m wave_mode /\
  st (ISR m) freq_index = m freq_index /\
  st (ISR m) duty_pct =
    (if (chain_address b =? 0) && (start_flag b =? 0) then 0 else m duty_pct).
Proof.
  intros (Hrc & Hfe & Hb) Hrange.
  pose proof (addr_byte_msb b Hrange) as Hmsb. rewrite <- Hb in Hmsb.
  unfold chain_address, start_flag. rewrite <- Hb.
  remember (ISR m) as r eqn:Hr.
  destruct (land1_cases (m RC1REG)) as [Hs | Hs];
    destruct (Z.land (Z.shiftr (m RC1REG) 1) 63 =? 0) eqn:Ha;
    rewrite Hs; cbn [andb]; simpl (_ =? _);
    assert (Ht : truthy (Z.land (m RC1REG) 1) = negb (Z.land (m RC1REG) 1 =? 0))
      by reflexivity;
    rewrite Hs in Ht at 2; simpl in Ht;
    assert (Hn : negb (Z.land (Z.shiftr (m RC1REG) 1) 63 =? 0) = negb
                   (Z.land (Z.shiftr (m RC1REG) 1) 63 =? 0)) by reflexivity;
    rewrite Ha in Hn at 2; simpl in Hn;
    pose proof (f_equal negb Ht) as Hnt; simpl in Hnt;
    subst r; run_all; cbn [negb]; exec; repeat split.
Qed.

Lemma address_byte_resynchronises_witness :
  let m := rx_load 5 (st (run (receive 1 ++ receive 138) boot)) in
  m state = 2 /\ st (ISR m) state = 0 /\ st (ISR m) duty_pct = m duty_pct.
Proof.
  intros m.
  assert (Hp : byte_pending 5 m) by (repeat split; reflexivity).
  destruct (address_byte_resynchronises 5 m Hp ltac:(lia)) as (Hs & _ & _ & Hd).
  split; [reflexivity | split; [exact Hs | exact Hd]].
Defined.


Lemma tx_bytes_app (l1 l2 : list event) :
  tx_bytes (l1 ++ l2) = tx_bytes l1 ++ tx_bytes l2.
Proof.
  induction l1 as [|e l1 IH]; [reflexivity|].
  destruct e as [l v| |]; try exact IH.
  destruct l; try exact IH. simpl. rewrite IH. reflexivity.
Qed.

Lemma land7_range (x : Z) : 0 <= Z.land x 7 <= 7.
Proof.
  pose proof (Z.land_ones x 3 ltac:(lia)) as H.
  change (Z.ones 3) with 7 in H. change (2 ^ 3) with 8 in H.
  pose proof (Z.mod_pos_bound x 8 eq_refl). lia.
Qed.

Lemma start_byte_effect (m : mem) :
  byte_pending 1 m ->
  st (ISR m) state = 1 /\ tx_bytes (evs (ISR m)) = [] /\
  (forall l, l <> RCIF -> l <> CREN -> l <> buffer -> l <> state ->
             st (ISR m) l = m l).
Proof.
  intros (Hrc & Hfe & Hb).
  run_all; rewrite ?Hb in *; try discriminate; repeat split;
    intros l H1 H2 H3 H4; destruct l; try reflexivity; congruence.
Qed.

Lemma data1_effect (b : Z) (m : mem) :
  byte_pending b m -> 128 <= b < 256 -> m state = 1 ->
  st (ISR m) state = 2 /\ st (ISR m) duty5_raw = Z.land b 31 /\
  tx_bytes (evs (ISR m)) = [] /\
  (forall l, l <> RCIF -> l <> CREN -> l <> buffer -> l <> state ->
             l <> duty5_raw -> st (ISR m) l = m l).
Proof.
  intros (Hrc & Hfe & Hb) Hrange Hs.
  assert (Hmsb : (Z.shiftr (m RC1REG) 7 =? 0) = false)
    by (rewrite Hb; apply data_byte_msb, Hrange).
  assert (Hs0 : (m state =? 0) = false) by (rewrite Hs; reflexivity).
  assert (Hs1 : (m state =? 1) = true) by (rewrite Hs; reflexivity).
  pose proof (land31_range b) as H31.
  run_all; rewrite Hb; rewrite (u8_small (Z.land b 31)) by lia; repeat split;
    intros l H1 H2 H3 H4 H5; destruct l; try reflexivity; congruence.
Qed.

Lemma commit_effect (b : Z) (m : mem) :
  byte_pending b m -> 128 <= b < 256 -> m state = 2 ->
  st (ISR m) state = 0 /\
  st (ISR m) duty5_raw = m duty5_raw /\
  st (ISR m) duty_pct = duty_pct_of (m duty5_raw) /\
  st (ISR m) wave_mode = Z.land (Z.shiftr (Z.land b 127) 3) 1 /\
  st (ISR m) freq_index = Z.land (Z.land b 127) 7 /\
  st (ISR m) uart_led_flag = 1 /\
  tx_bytes (evs (ISR m)) = [].
Proof.
  intros (Hrc & Hfe & Hb) Hrange Hs.
  assert (Hmsb : (Z.shiftr (m RC1REG) 7 =? 0) = false)
    by (rewrite Hb; apply data_byte_msb, Hrange).
  assert (Hs0 : (m state =? 0) = false) by (rewrite Hs; reflexivity).
  assert (Hs1 : (m state =? 1) = false) by (rewrite Hs; reflexivity).
  rewrite <- Hb. run_all; repeat split.
Qed.

Lemma data2_bits (b : Z) :
  128 <= b < 256 ->
  Z.land (Z.shiftr (Z.land b 127) 3) 1 = Z.land (Z.shiftr b 3) 1 /\
  Z.land (Z.land b 127) 7 = Z.land b 7.
Proof.
  intros Hb.
  set (chk := fun b =>
    (Z.land (Z.shiftr (Z.land b 127) 3) 1 =? Z.land (Z.shiftr b 3) 1) &&
    (Z.land (Z.land b 127) 7 =? Z.land b 7)).
  assert (Hall : forallb chk (zrange 128 128) = true) by (vm_compute; reflexivity).
  pose proof (forall_zrange chk 128 128 Hall b ltac:(lia)) as H.
  unfold chk in H. apply andb_true_iff in H. destruct H as [H1 H2].
  split; apply Z.eqb_eq; assumption.
Qed.

(** X5. A complete START frame (address byte 0x01 and two data bytes),
    received from any state with the receive interrupt enabled, commits
    exactly the fields it carries, returns to stage 0 and forwards nothing. *)
Theorem start_frame_commits (m : mem) (b1 b2 : Z) :
  rx_enabled m -> 128 <= b1 < 256 -> 128 <= b2 < 256 ->
  let r := run (receive 1 ++ receive b1 ++ receive b2) m in
  st r state = 0 /\
  st r duty5_raw = Z.land b1 31 /\
  st r duty_pct = duty_pct_of (Z.land b1 31) /\
  st r wave_mode = Z.land (Z.shiftr b2 3) 1 /\
  st r freq_index = Z.land b2 7 /\
  st r uart_led_flag = 1 /\
  tx_bytes (evs r) = [].
Proof.
  intros Hen H1 H2 r. subst r.
  rewrite !run_app_st, !run_app_evs, !tx_bytes_app.
  destruct (receive_served 1 m Hen) as [Hst1 Hev1].
  rewrite Hst1, Hev1.
  set (m1 := st (ISR (rx_load 1 m))).
  destruct (start_byte_effect (rx_load 1 m) (rx_load_pending 1 m ltac:(lia)))
    as (Hs1 & Htx1 & _).
  assert (Hen1 : rx_enabled m1)
    by (apply ISR_keeps_rx_enabled, rx_load_enabled, Hen).
  destruct (receive_served b1 m1 Hen1) as [Hst2 Hev2]. rewrite Hst2, Hev2.
  set (m2 := st (ISR (rx_load b1 m1))).
  assert (Hm1s : rx_load b1 m1 state = 1) by exact Hs1.
  destruct (data1_effect b1 (rx_load b1 m1) (rx_load_pending b1 m1 ltac:(lia)) H1 Hm1s)
    as (Hs2 & Hd2 & Htx2 & _).
  assert (Hen2 : rx_enabled m2)
    by (apply ISR_keeps_rx_enabled, rx_load_enabled, Hen1).
  destruct (receive_served b2 m2 Hen2) as [Hst3 Hev3]. rewrite Hst3, Hev3.
  assert (Hm2s : rx_load b2 m2 state = 2) by exact Hs2.
  assert (Hm2d : rx_load b2 m2 duty5_raw = Z.land b1 31) by exact Hd2.
  destruct (commit_effect b2 (rx_load b2 m2) (rx_load_pending b2 m2 ltac:(lia)) H2 Hm2s)
    as (Hs3 & Hd3 & Hp3 & Hw3 & Hf3 & Hl3 & Htx3).
  destruct (data2_bits b2 H2) as [Hbw Hbf].
  rewrite Htx1, Htx2, Htx3, Hs3, Hd3, Hp3, Hw3, Hf3, Hl3, Hm2d, Hbw, Hbf.
  repeat split.
Qed.

Lemma start_frame_commits_witness :
  let r := run (receive 1 ++ receive 138 ++ receive 131) boot in
  st r duty5_raw = 10 /\ st r duty_pct = 31 /\ st r freq_index = 3.
Proof.
  assert (He : rx_enabled boot) by (repeat split; reflexivity).
  destruct (start_frame_commits boot 138 131 He ltac:(lia) ltac:(lia))
    as (_ & H5 & Hp & _ & Hf & _).
  split; [exact H5 | split; [exact Hp | exact Hf]].
Defined.


(** ** Arming *)

Lemma reload_bytes (k : Z) :
  0 <= k < 8 ->
  let r := idx T1_RELOAD k in
  256 * u8 (Z.shiftr r 8) + u8 (Z.land r 255) = r /\
  41 <= 65536 - r <= 127.
Proof.
  intros Hk.
  set (chk := fun k => let r := idx T1_RELOAD k in
     (256 * u8 (Z.shiftr r 8) + u8 (Z.land r 255) =? r) &&
     (41 <=? 65536 - r) && (65536 - r <=? 127)).
  assert (Hall : forallb chk (zrange 0 8) = true) by (vm_compute; reflexivity).
  pose proof (forall_zrange chk 0 8 Hall k ltac:(lia)) as H.
  unfold chk in H. cbv zeta in H.
  repeat (apply andb_true_iff in H; destruct H as [H ?]).
  apply Z.eqb_eq in H. cbv zeta. split; [exact H|].
  split; apply Z.leb_le; assumption.
Qed.

(** X6. [t1_apply_reload] masks its index: for every argument the reload
    value is one of the eight table entries, a period of 41 to 127 ticks;
    the two timer bytes recompose to it, the timer is left running with its
    flag cleared, and nothing else changes. *)
Theorem t1_apply_reload_loads (fidx : Z) (m : mem) :
  let m' := st (t1_apply_reload fidx m) in
  m' t1_reload = idx T1_RELOAD (Z.land fidx 7) /\
  256 * m' TMR1H + m' TMR1L = m' t1_reload /\
  41 <= 65536 - m' t1_reload <= 127 /\
  m' TMR1ON = 1 /\ m' TMR1IF = 0 /\
  (forall l, l <> t1_reload -> l <> TMR1H -> l <> TMR1L -> l <> TMR1ON ->
             l <> TMR1IF -> m' l = m l).
Proof.
  pose proof (land7_range fidx) as Hk.
  destruct (reload_bytes (Z.land fidx 7) ltac:(lia)) as [Hb Hp]. cbv zeta in Hb.
  cbv zeta. exec. repeat split; try assumption; try lia.
  intros l H1 H2 H3 H4 H5. destruct l; try reflexivity; congruence.
Qed.

(** X7. The tick of the engine that is not selected does nothing but clear
    its flag: a Timer1 interrupt in square mode, a Timer2 interrupt in sine
    mode; and an entry with no flag raised writes nothing at all. *)
Theorem idle_engine_tick_inert (m : mem) :
  truthy (m RCIF) = false ->
  (truthy (m TMR1IF) = true -> truthy (m wave_mode) = false ->
     evs (ISR m) = [Wr TMR1IF 0]) /\
  (truthy (m TMR1IF) = false -> truthy (m TMR2IF) = true ->
     truthy (m wave_mode) = true ->
     evs (ISR m) = [Wr TMR2IF 0]) /\
  (truthy (m TMR1IF) = false -> truthy (m TMR2IF) = false ->
     evs (ISR m) = [] /\ forall l, st (ISR m) l = m l).
Proof.
  intros Hrc. split; [|split].
  - intros H1 Hw. assert (Hn : negb (truthy (m wave_mode)) = true) by (rewrite Hw; reflexivity).
    run_all. reflexivity.
  - intros H1 H2 Hw. assert (Hn : negb (truthy (m wave_mode)) = false) by (rewrite Hw; reflexivity).
    run_all. reflexivity.
  - intros H1 H2. run_all. split; [reflexivity | intros; reflexivity].
Qed.

Lemma idle_engine_tick_inert_witness :
  evs (ISR (upd TMR2IF 1 boot)) = [Wr TMR2IF 0].
Proof.
  destruct (idle_engine_tick_inert (upd TMR2IF 1 boot) eq_refl) as (_ & H & _).
  exact (H eq_refl eq_refl eq_refl).
Defined.


(** X8. The commit programs the selected engine.  Square: Timer1 stopped
    with its interrupt disabled, Timer2 and its interrupt enabled with the
    period of the committed frequency, window and flags reset, both pins on
    the enabled CWG.  Sine: Timer1 running with its interrupt enabled and
    the reload of the committed frequency, phase and sign reset, carrier
    period 199, CWG disabled, bridge coasted, amplitude scale from the
    committed intensity; the square engine is not torn down, its Timer2
    interrupt enable, pending tick, window flags and window position are
    left as they were. *)
Theorem commit_arms_engine (b : Z) (m : mem) :
  byte_pending b m -> 128 <= b < 256 -> m state = 2 ->
  let m' := st (ISR m) in
  (truthy (m' wave_mode) = true ->
     m' TMR1IE = 1 /\ m' TMR1ON = 1 /\ m' CWG1CON0_EN = 0 /\
     m' PR2 = 199 /\ m' TMR2ON = 1 /\
     m' phase_idx = 0 /\ m' last_sign = 0 /\
     bridge_of m' = (0, 0, 0, 0) /\
     m' t1_reload = idx T1_RELOAD (m' freq_index) /\
     256 * m' TMR1H + m' TMR1L = m' t1_reload /\
     m' scale = amp_scale 799 (Z.min 100 (m' duty_pct)) /\
     m' TMR2IE = m TMR2IE /\ m' square_tick = m square_tick /\
     m' cwg_flag = m cwg_flag /\ m' duty_flag = m duty_flag /\
     m' index200 = m index200) /\
  (truthy (m' wave_mode) = false ->
     m' TMR1IE = 0 /\ m' TMR1ON = 0 /\ m' CWG1CON0_EN = 1 /\
     m' PR2 = idx PR_val (m' freq_index) /\ m' TMR2ON = 1 /\ m' TMR2IE = 1 /\
     m' index200 = 0 /\ m' cwg_flag = 0 /\ m' duty_flag = 0 /\
     m' square_tick = 0 /\ m' last_sign = 0 /\
     bridge_of m' = (9, 8, 0, 0)).
Proof.
  intros (Hrc & Hfe & Hb) Hrange Hs.
  assert (Hmsb : (Z.shiftr (m RC1REG) 7 =? 0) = false)
    by (rewrite Hb; apply data_byte_msb, Hrange).
  assert (Hs0 : (m state =? 0) = false) by (rewrite Hs; reflexivity).
  assert (Hs1 : (m state =? 1) = false) by (rewrite Hs; reflexivity).
  pose proof (land7_range (Z.land (m RC1REG) 127)) as Hk.
  destruct (reload_bytes (Z.land (Z.land (m RC1REG) 127) 7) ltac:(lia)) as [Hbytes _].
  cbv zeta in Hbytes.
  assert (Hidem : Z.land (Z.land (Z.land (m RC1REG) 127) 7) 7
                  = Z.land (Z.land (m RC1REG) 127) 7).
  { rewrite <- Z.land_assoc. reflexivity. }
  cbv zeta. unfold bridge_of.
  run_all; (split; [intros Hw | intros Hw]); try congruence;
    rewrite ?Hidem; repeat split; try exact Hbytes.
  all: change (carrier_top 199) with 799.
  all: match goal with
       | H : (?x >? 100) = true |- _ =>
           apply Z.gtb_lt in H; rewrite Z.min_l by lia; reflexivity
       | H : (?x >? 100) = false |- _ =>
           rewrite Z.gtb_ltb in H; apply Z.ltb_ge in H;
           rewrite Z.min_r by lia; reflexivity
       end.
Qed.

Lemma commit_arms_engine_witness :
  let m := rx_load 131 (st (run (receive 1 ++ receive 138) boot)) in
  st (ISR m) TMR1IE = 0 /\ st (ISR m) TMR2IE = 1 /\ st (ISR m) PR2 = 52.
Proof.
  intros m.
  assert (Hp : byte_pending 131 m) by (repeat split; reflexivity).
  destruct (commit_arms_engine 131 m Hp ltac:(lia) eq_refl) as [_ Hsq].
  destruct (Hsq eq_refl) as (H1 & _ & _ & Hpr & _ & H2 & _).
  split; [exact H1 | split; [exact H2 | exact Hpr]].
Defined.


(** ** Invariants *)

Lemma sample_sign_cases (i : Z) (ls : Z) :
  ls = -1 \/ ls = 0 \/ ls = 1 ->
  let s8 := idx SINE64_8 i in
  let sgn := if s8 >? 0 then 1 else if s8 <? 0 then -1 else ls in
  sgn = -1 \/ sgn = 0 \/ sgn = 1.
Proof.
  intros H. cbv zeta.
  destruct (idx SINE64_8 i >? 0); [lia|].
  destruct (idx SINE64_8 i <? 0); [lia|]. exact H.
Qed.

Lemma pr_val_range (x : Z) : 0 <= idx PR_val (Z.land x 7) < 256.
Proof.
  pose proof (land7_range x) as Hk.
  set (chk := fun k => (0 <=? idx PR_val k) && (idx PR_val k <? 256)).
  assert (Hall : forallb chk (zrange 0 8) = true) by (vm_compute; reflexivity).
  pose proof (forall_zrange chk 0 8 Hall (Z.land x 7) ltac:(lia)) as H.
  unfold chk in H. apply andb_true_iff in H. destruct H as [H1 H2].
  apply Z.leb_le in H1. apply Z.ltb_lt in H2. lia.
Qed.

Ltac minv_close :=
  match goal with
  | |- 0 <= idx PR_val (Z.land _ 7) < 256 => apply pr_val_range
  | |- 0 <= u8 (?p + 1) < 64 =>
      match goal with
      | E : (u8 (p + 1) >=? SINE_LEN) = false |- _ =>
          unfold SINE_LEN in E; rewrite Z.geb_leb in E; apply Z.leb_gt in E;
          pose proof (Z.mod_pos_bound (p + 1) 256 eq_refl);
          unfold u8 in *; lia
      end
  | |- 0 <= u8 (?i + 1) < 200 =>
      match goal with
      | E : (u8 (i + 1) =? 200) = false |- _ =>
          apply Z.eqb_neq in E; rewrite u8_small in * by lia; lia
      end
  | |- _ <= _ <= _ => first [assumption | lia | apply land7_range]
  | |- _ <= _ < _ => first [assumption | lia ]
  | |- _ /\ _ => split; minv_close
  | |- bit _ => first [assumption | left; reflexivity | right; reflexivity
                       | apply land1_cases ]
  | |- _ <> _ -> _ <> _ => first
      [ assumption
      | intros _; apply truthy_true; assumption
      | intros; congruence ]
  | |- _ => first
      [ assumption
      | reflexivity
      | lia
      | left; reflexivity
      | right; left; reflexivity
      | right; right; reflexivity ]
  end.

Lemma fire_machine_inv (e : stimulus) (m : mem) :
  machine_inv m -> machine_inv (st (fire e m)).
Proof.
  unfold machine_inv.
  intros (Hst & Hw & Hf & Hp & Hi & Hls & Hcf & Hdf & Hsq & Hpa & Hpb & Hie & Hpr).
  destruct e.
  - run_all. minv_close.
  - run_all. minv_close.
  - run_all. minv_close.
  - cbv beta iota delta [fire]. destruct (irq_pending m); [|exec; minv_close].
    run_all; minv_close.
  - run_all; try minv_close;
      destruct (getColor32 (m duty5_raw)) as [[r g] b]; run_all; minv_close.
Qed.

Lemma boot_machine_inv : machine_inv boot.
Proof.
  unfold machine_inv, bit. vm_compute. intuition (try discriminate; auto).
Qed.

(** X9. In every reachable state the stage is 0, 1 or 2, the table indices
    are in range (frequency 0..7, phase 0..63, window position 0..199), the
    flags are bits, the two CWG polarity bits are equal, and the Timer1
    interrupt is enabled only in sine mode. *)
Theorem reachable_machine_inv (m : mem) : reachable m -> machine_inv m.
Proof.
  induction 1 as [|e m Hr IH]; [apply boot_machine_inv | apply fire_machine_inv, IH].
Qed.

Lemma reachable_machine_inv_witness :
  let m := st (run (start_sine_low ++ [HwTmr1; Irq]) boot) in
  0 <= m phase_idx < 64 /\ 0 <= m freq_index <= 7.
Proof.
  intros m.
  assert (Hr : reachable m) by (apply reachable_run, reach_boot).
  destruct (reachable_machine_inv m Hr) as (_ & _ & Hf & Hp & _).
  split; assumption.
Defined.


Lemma fire_bridge_config (e : stimulus) (m : mem) :
  bridge_config (bridge_of m) -> bridge_config (bridge_of (st (fire e m))).
Proof.
  unfold bridge_config, bridge_of. intros H.
  destruct e.
  - exact H.
  - exact H.
  - exact H.
  - cbv beta iota delta [fire]. destruct (irq_pending m); [|exact H].
    run_all; first [ exact H | left; reflexivity | right; left; reflexivity
                   | right; right; left; reflexivity | right; right; right; reflexivity ].
  - run_all; try exact H;
      destruct (getColor32 (m duty5_raw)) as [[r g] b]; run_all; exact H.
Qed.

(** X10. Between interrupts and main-loop passes the two bridge pins are
    always in one of four configurations; in particular both latches are
    never high together and the carrier is never on both legs. *)
Theorem reachable_bridge_config (m : mem) :
  reachable m -> bridge_config (bridge_of m).
Proof.
  induction 1 as [|e m Hr IH].
  - left. reflexivity.
  - apply fire_bridge_config, IH.
Qed.

Lemma reachable_bridge_config_witness :
  let m := st (run (start_sine_low ++ [HwTmr1; Irq]) boot) in
  bridge_config (bridge_of m).
Proof.
  intros m. apply reachable_bridge_config, reachable_run, reach_boot.
Defined.


(** ** Sine drive *)

(** X11. A sine tick with nonzero amplitude scale records the sign of the
    new sample (the previous sign on a zero sample) and advances the phase.
    When the sign changes, the bridge ends routed for the new sign; when it
    does not, the routing is left exactly as it was. *)
Theorem sine_tick_routing (m : mem) :
  sine_tick_pending m -> truthy (m scale) = true ->
  st (ISR m) last_sign = next_sign m /\
  st (ISR m) phase_idx = next_phase m /\
  (next_sign m <> m last_sign ->
     bridge_of (st (ISR m)) = routed_for (next_sign m) /\
     drive_consistent (st (ISR m))) /\
  (next_sign m = m last_sign -> bridge_of (st (ISR m)) = bridge_of m).
Proof.
  intros (Hrc & Ht1 & Hw) Hsc.
  assert (Hw' : negb (truthy (m wave_mode)) = false) by (rewrite Hw; reflexivity).
  assert (Hsc' : negb (truthy (m scale)) = false) by (rewrite Hsc; reflexivity).
  unfold drive_consistent, bridge_of, next_sign, next_sample, next_phase in *.
  cbv zeta.
  run_all; cbn [negb] in *;
    repeat match goal with
           | H : negb _ = true |- _ => apply negb_true_iff in H
           | H : negb _ = false |- _ => apply negb_false_iff in H
           | H : (_ =? _) = true |- _ => apply Z.eqb_eq in H
           | H : (_ =? _) = false |- _ => apply Z.eqb_neq in H
           | H : (_ >? _) = true |- _ => apply Z.gtb_lt in H
           end;
    (split; [first [reflexivity | congruence | lia]
            | split; [reflexivity | split; intros Hc]]);
    first [ reflexivity
          | exfalso; congruence
          | exfalso; lia
          | split; [auto | right; left; split; reflexivity]
          | split; [auto | right; right; split; reflexivity]
          | idtac ].
Qed.

Lemma sine_tick_routing_witness :
  let m := st (run (start_sine_low ++ [HwTmr1]) boot) in
  st (ISR m) last_sign = 1 /\ bridge_of (st (ISR m)) = (CCP1_PPS_CODE, 0, 0, 1).
Proof.
  intros m.
  assert (Hp : sine_tick_pending m) by (repeat split; reflexivity).
  destruct (sine_tick_routing m Hp eq_refl) as (Hs & _ & Hc & _).
  split; [exact Hs | reflexivity].
Defined.

(** The routing is therefore in step with the recorded sign from the first
    sign change on, not before.  A sine START that arrives while a square
    window tick waits for the main loop: the pass that follows runs
    [square_processing], which records the sign +1 and enables the CWG with
    the bridge coasted; the next sine tick finds its sign already recorded
    and routes nothing. *)
Remark sine_start_over_pending_square_tick :
  let m := st (run square_then_sine boot) in
  let m' := st (run [HwTmr1; Irq] m) in
  truthy (m wave_mode) = true /\ m scale = 767 /\
  m TMR2IE = 1 /\ m CWG1CON0_EN = 1 /\
  m last_sign = 1 /\ bridge_of m = (0, 0, 0, 0) /\
  m' phase_idx = 1 /\ m' last_sign = 1 /\ bridge_of m' = (0, 0, 0, 0) /\
  pwm10_of m' = 727.
Proof.
  vm_compute. repeat split.
Qed.

(** X12. Whatever the sample, the amplitude scale and the carrier period,
    the duty value of a sine tick lies between 0 and the carrier full scale
    (the subtraction never wraps); a zero sample gives the full scale, and
    opposite samples give the same duty. *)
Theorem sine_duty_bounded (s8 sc pr2 : Z) :
  -128 <= s8 <= 127 -> 0 <= sc < 65536 -> 0 <= pr2 < 256 ->
  0 <= sine_duty s8 sc pr2 <= carrier_top pr2 /\
  (s8 = 0 -> sine_duty s8 sc pr2 = carrier_top pr2) /\
  (-127 <= s8 -> sine_duty (- s8) sc pr2 = sine_duty s8 sc pr2).
Proof.
  intros Hs Hsc Hpr.
  destruct (carrier_top_range pr2 Hpr) as [Htop Hrange].
  assert (Hcore : forall s, -128 <= s <= 127 ->
            0 <= sine_duty s sc pr2 <= carrier_top pr2).
  { intros s Hs'. unfold sine_duty. cbv zeta.
    set (d := u16 (Z.shiftr _ 7)).
    assert (Hd : 0 <= d) by (apply Z.mod_pos_bound; lia).
    destruct (d >=? carrier_top pr2) eqn:E.
    - rewrite Z.sub_diag. unfold u16. rewrite Z.mod_small; lia.
    - rewrite Z.geb_leb in E. apply Z.leb_gt in E.
      unfold u16. rewrite Z.mod_small; lia. }
  split; [apply Hcore, Hs|]. split.
  - intros ->. unfold sine_duty. cbv zeta. simpl (if 0 >=? 0 then _ else _).
    change (u16 0) with 0. change (u32 0) with 0. rewrite Z.mul_0_r.
    change (u16 (Z.shiftr (u32 (u32 0 + 64)) 7)) with 0.
    destruct (0 >=? carrier_top pr2) eqn:E.
    + rewrite Z.geb_leb in E. apply Z.leb_le in E. lia.
    + rewrite Z.sub_0_r. unfold u16. apply Z.mod_small. lia.
  - intros Hneg. unfold sine_duty.
    assert (Hmag : (if - s8 >=? 0 then - s8 else - - s8) =
                   (if s8 >=? 0 then s8 else - s8)).
    { destruct (s8 >=? 0) eqn:E1; destruct (- s8 >=? 0) eqn:E2;
        rewrite Z.geb_leb in E1, E2;
        try apply Z.leb_le in E1; try apply Z.leb_gt in E1;
        try apply Z.leb_le in E2; try apply Z.leb_gt in E2; lia. }
    rewrite Hmag. reflexivity.
Qed.

Lemma sine_duty_bounded_witness :
  0 <= sine_duty 12 24 199 <= carrier_top 199.
Proof.
  exact (proj1 (sine_duty_bounded 12 24 199 ltac:(lia) ltac:(lia) ltac:(lia))).
Defined.


Lemma amp_scale_eq (top pct : Z) :
  0 <= top <= 1023 -> 0 <= pct <= 100 ->
  amp_scale top pct = (top * pct + 50) / 100.
Proof.
  intros Ht Hp. unfold amp_scale, u32, u16.
  rewrite (Z.mod_small top) by lia. rewrite (Z.mod_small pct) by lia.
  assert (0 <= top * pct <= 1023 * 100) by nia.
  rewrite (Z.mod_small (top * pct)) by lia.
  rewrite (Z.mod_small (top * pct + 50)) by lia.
  apply Z.mod_small. split.
  - apply Z.div_pos; lia.
  - apply Z.div_lt_upper_bound; lia.
Qed.

(** X13. [lra_set_amp] sets the scale to the percentage of the carrier full
    scale, rounded to nearest; percentages above 100 count as 100 and give
    exactly the full scale; the scale never exceeds the full scale; when it
    is 0 the bridge is coasted and the duty register zeroed, otherwise
    nothing but the scale is written. *)
Theorem lra_set_amp_scale (pct : Z) (m : mem) :
  0 <= pct < 256 -> 0 <= m PR2 < 256 ->
  let top := carrier_top (m PR2) in
  let m' := st (lra_set_amp pct m) in
  m' scale = (top * Z.min pct 100 + 50) / 100 /\
  0 <= m' scale <= top /\
  (100 <= pct -> m' scale = top) /\
  (m' scale = 0 <-> top * Z.min pct 100 < 50) /\
  (m' scale = 0 ->
     evs (lra_set_amp pct m) =
       Wr scale 0 :: coast_writes ++ [Wr CCPR1H 0; Wr CCPR1L 0]) /\
  (m' scale <> 0 -> evs (lra_set_amp pct m) = [Wr scale (m' scale)]).
Proof.
  intros Hp Hpr. cbv zeta.
  destruct (carrier_top_range (m PR2) Hpr) as [_ Htop].
  set (top := carrier_top (m PR2)) in *.
  assert (Hclamp : (if pct >? 100 then 100 else pct) = Z.min pct 100).
  { destruct (pct >? 100) eqn:E.
    - apply Z.gtb_lt in E. lia.
    - rewrite Z.gtb_ltb in E. apply Z.ltb_ge in E. lia. }
  assert (Hsc : amp_scale top (Z.min pct 100) = (top * Z.min pct 100 + 50) / 100)
    by (apply amp_scale_eq; lia).
  assert (Hprod : 0 <= top * Z.min pct 100 <= top * 100) by nia.
  assert (Hlo : 0 <= (top * Z.min pct 100 + 50) / 100) by (apply Z.div_pos; lia).
  assert (Hhi : (top * Z.min pct 100 + 50) / 100 <= top).
  { assert ((top * Z.min pct 100 + 50) / 100 < top + 1)
      by (apply Z.div_lt_upper_bound; lia).
    lia. }
  assert (Hval : st (lra_set_amp pct m) scale = (top * Z.min pct 100 + 50) / 100).
  { exec. rewrite Hclamp. fold top. rewrite Hsc.
    destruct (truthy ((top * Z.min pct 100 + 50) / 100)); reflexivity. }
  rewrite Hval. split; [reflexivity|]. split; [lia|]. split; [|split; [|split]].
  - intros H100. rewrite Z.min_r by lia.
    symmetry. apply Z.div_unique with (r := 50); lia.
  - split.
    + intros H0. apply Z.div_small_iff in H0; lia.
    + intros Hlt. apply Z.div_small. lia.
  - intros H0. exec. rewrite Hclamp. fold top. rewrite Hsc, H0. reflexivity.
  - intros Hnz. exec. rewrite Hclamp. fold top. rewrite Hsc.
    apply truthy_true in Hnz. rewrite Hnz. reflexivity.
Qed.

Lemma lra_set_amp_scale_witness :
  st (lra_set_amp 100 boot) scale = carrier_top (boot PR2).
Proof.
  assert (Hpr : 0 <= boot PR2 < 256) by (vm_compute; split; [discriminate | reflexivity]).
  destruct (lra_set_amp_scale 100 boot ltac:(lia) Hpr) as (_ & _ & H100 & _).
  exact (H100 ltac:(lia)).
Defined.


(** ** Square window, main loop, palette, quiescence *)

Ltac norm_bools :=
  repeat match goal with
         | H : negb _ = true |- _ => apply negb_true_iff in H
         | H : negb _ = false |- _ => apply negb_false_iff in H
         | H : _ || _ = true |- _ => apply orb_true_iff in H; destruct H as [H|H]
         | H : _ || _ = false |- _ => apply orb_false_iff in H; destruct H as [H ?]
         | H : _ && _ = true |- _ => apply andb_true_iff in H; destruct H as [H ?]
         | H : (_ =? _) = true |- _ => apply Z.eqb_eq in H
         | H : (_ =? _) = false |- _ => apply Z.eqb_neq in H
         end.

(** X14. [square_processing] is edge-triggered: run again on the state it
    has just produced it writes nothing. *)
Theorem square_processing_edge_triggered (m : mem) :
  evs (square_processing (st (square_processing m))) = [] /\
  (forall l, st (square_processing (st (square_processing m))) l
             = st (square_processing m) l).
Proof.
  split; [|intros l];
  run_all; try reflexivity; norm_bools; try congruence; try lia.
Qed.




(** X16. A main-loop pass restores the global interrupt enable, consumes
    both flags, and calls the LED routine at most once, with interrupts
    masked: exactly when the LED flag is up and the duty code differs from
    the colour last shown, with the colour of that code. *)
Theorem main_pass_led (m : mem) :
  let r := main_pass m in
  st r GIE = m GIE /\
  st r uart_led_flag = 0 /\ st r square_tick = 0 /\
  led_masked (m GIE) (evs r) = true /\
  filter is_led_call (evs r) =
    (if truthy (m uart_led_flag) && negb (m color_index =? m duty5_raw)
     then let '(cr, cg, cb) := getColor32 (m duty5_raw) in [Call_sendColor cr cg cb]
     else []) /\
  (truthy (m uart_led_flag) = true -> st r color_index = m duty5_raw).
Proof.
  cbv zeta.
  destruct (truthy (m uart_led_flag)) eqn:Hl;
    destruct (negb (m color_index =? m duty5_raw)) eqn:Hc; cbn [andb];
    try (destruct (getColor32 (m duty5_raw)) as [[cr cg] cb] eqn:Hcol);
    exec; rewrite ?Hl; exec; rewrite ?Hc; exec; rewrite ?Hcol; exec;
    repeat (split_if; exec);
    repeat split; try reflexivity;
    try (intros; discriminate);
    try (apply truthy_false; assumption);
    try (apply negb_false_iff, Z.eqb_eq in Hc; intros; congruence).
Qed.

Lemma main_pass_led_witness :
  let m := st (run start_sine_low boot) in
  st (main_pass m) GIE = m GIE /\ st (main_pass m) color_index = m duty5_raw.
Proof.
  intros m.
  destruct (main_pass_led m) as (Hg & _ & _ & _ & _ & Hc).
  split; [exact Hg | exact (Hc eq_refl)].
Defined.


Lemma rgb_eqb_eq (a b : Z * Z * Z) : rgb_eqb a b = true <-> a = b.
Proof.
  destruct a as [[r1 g1] b1], b as [[r2 g2] b2]. unfold rgb_eqb.
  rewrite !andb_true_iff, !Z.eqb_eq. split.
  - intros [[-> ->] ->]. reflexivity.
  - intros H. inversion H. auto.
Qed.

(** X17. [getColor32]: every component is a byte; codes 30 and above give
    white (the index is clamped and the last segment is not interpolated);
    an even code gives its key colour, an odd one the mean of its two
    neighbours; codes 0..30 give pairwise distinct colours. *)
Theorem getColor32_palette :
  (forall i, 0 <= i < 256 -> rgb_bytes (getColor32 i) = true) /\
  (forall i, 30 <= i < 256 -> getColor32 i = (255, 255, 255)) /\
  (forall k, 0 <= k <= 15 -> getColor32 (2 * k) = key16 k) /\
  (forall k, 0 <= k < 15 ->
     getColor32 (2 * k + 1) = rgb_mean (key16 k) (key16 (k + 1))) /\
  (forall i j, 0 <= i < 31 -> 0 <= j < 31 ->
     getColor32 i = getColor32 j -> i = j).
Proof.
  split; [|split; [|split; [|split]]].
  - intros i Hi. apply (forall_zrange (fun i => rgb_bytes (getColor32 i)) 0 256);
      [vm_compute; reflexivity | lia].
  - intros i Hi. apply rgb_eqb_eq.
    apply (forall_zrange (fun i => rgb_eqb (getColor32 i) (255, 255, 255)) 30 226);
      [vm_compute; reflexivity | lia].
  - intros k Hk. apply rgb_eqb_eq.
    apply (forall_zrange (fun k => rgb_eqb (getColor32 (2 * k)) (key16 k)) 0 16);
      [vm_compute; reflexivity | lia].
  - intros k Hk. apply rgb_eqb_eq.
    apply (forall_zrange
             (fun k => rgb_eqb (getColor32 (2 * k + 1))
                               (rgb_mean (key16 k) (key16 (k + 1)))) 0 15);
      [vm_compute; reflexivity | lia].
  - intros i j Hi Hj Heq. apply rgb_eqb_eq in Heq.
    set (chk := fun i => forallb (fun j =>
                  negb (rgb_eqb (getColor32 i) (getColor32 j)) || (i =? j))
                  (zrange 0 31)).
    assert (Hall : forallb chk (zrange 0 31) = true) by (vm_compute; reflexivity).
    pose proof (forall_zrange chk 0 31 Hall i ltac:(lia)) as H.
    unfold chk in H.
    pose proof (forall_zrange _ 0 31 H j ltac:(lia)) as H'.
    cbv beta in H'. rewrite Heq in H'. simpl in H'. apply Z.eqb_eq in H'. exact H'.
Qed.

Lemma getColor32_palette_witness :
  getColor32 31 = (255, 255, 255) /\ getColor32 4 = key16 2.
Proof.
  destruct getColor32_palette as (_ & Hw & Hk & _).
  split; [exact (Hw 31 ltac:(lia)) | exact (Hk 2 ltac:(lia))].
Defined.


(** X18. With no byte pending, both engine interrupts disabled and both
    main-loop flags down, nothing is written until a byte arrives, whatever
    timer events, interrupt entries and main-loop passes occur. *)
Theorem quiescent_until_reception (es : list stimulus) (m : mem) :
  quiescent m -> forallb no_reception es = true ->
  evs (run es m) = [] /\ quiescent (st (run es m)) /\
  (forall l, l <> TMR1IF -> l <> TMR2IF -> st (run es m) l = m l).
Proof.
  revert m. induction es as [|e es IH]; intros m Hq Hes.
  - repeat split; apply Hq.
  - simpl in Hes. apply andb_true_iff in Hes. destruct Hes as [He Hes].
    rewrite run_cons_evs, run_cons_st.
    assert (Hstep : evs (fire e m) = [] /\ quiescent (st (fire e m)) /\
                    (forall l, l <> TMR1IF -> l <> TMR2IF ->
                               st (fire e m) l = m l)).
    { destruct Hq as (Hrc & H1 & H2 & Hl & Hs). unfold quiescent.
      destruct e; try discriminate He.
      - exec. repeat split; try assumption.
        intros l Ha Hb. destruct l; try reflexivity; congruence.
      - exec. repeat split; try assumption.
        intros l Ha Hb. destruct l; try reflexivity; congruence.
      - cbv beta iota delta [fire]. unfold irq_pending.
        rewrite Hrc, H1, H2. simpl. rewrite !andb_false_r.
        repeat split; assumption.
      - assert (Tl : truthy (m uart_led_flag) = false) by (rewrite Hl; reflexivity).
        assert (Ts : truthy (m square_tick) = false) by (rewrite Hs; reflexivity).
        exec. rewrite Tl. exec. rewrite Ts. exec. repeat split; assumption. }
    destruct Hstep as (Hev & Hq' & Hfr).
    destruct (IH _ Hq' Hes) as (IHev & IHq & IHfr).
    rewrite Hev, IHev. repeat split; try apply IHq.
    intros l Ha Hb. rewrite IHfr, Hfr by assumption. reflexivity.
Qed.

Lemma quiescent_until_reception_witness :
  evs (run [HwTmr1; Irq; HwTmr2; Irq; MainPass] boot) = [].
Proof.
  assert (Hq : quiescent boot) by (repeat split; reflexivity).
  exact (proj1 (quiescent_until_reception
                  [HwTmr1; Irq; HwTmr2; Irq; MainPass] boot Hq eq_refl)).
Defined.


(** ** Square drive while the window is on *)

(** X19. With the window on, [square_processing] leaves both flags up and
    the sign of the current half recorded.  When the CWG was not latched for
    this half it is re-enabled with both polarity bits of the half (0 in the
    first half, 1 in the second); when it was, the CWG registers are not
    written.  The full-scale duty is loaded only when [duty_flag] was down:
    a duty register loaded earlier is kept as it is. *)
Theorem square_on_latch (m : mem) :
  bit (m cwg_flag) -> bit (m duty_flag) -> 0 <= m PR2 < 256 ->
  window_on (m index200) (m duty_pct) = true ->
  let m' := st (square_processing m) in
  let half := m index200 >=? 100 in
  let sgn := if half then -1 else 1 in
  m' cwg_flag = 1 /\ m' duty_flag = 1 /\ m' last_sign = sgn /\
  (m cwg_flag = 0 \/ m last_sign <> sgn ->
     m' CWG1CON0_EN = 1 /\
     m' CWG1CON1_POLA = b2z half /\ m' CWG1CON1_POLB = b2z half) /\
  (m cwg_flag = 1 -> m last_sign = sgn ->
     m' CWG1CON0_EN = m CWG1CON0_EN /\
     m' CWG1CON1_POLA = m CWG1CON1_POLA /\ m' CWG1CON1_POLB = m CWG1CON1_POLB) /\
  (m duty_flag = 0 -> pwm10_of m' = carrier_top (m PR2)) /\
  (m duty_flag = 1 -> m' CCPR1H = m CCPR1H /\ m' CCPR1L = m CCPR1L).
Proof.
  intros Hcf Hdf Hpr Hon. cbv zeta.
  destruct (carrier_top_range (m PR2) Hpr) as [_ Htop].
  pose proof (pwm10_roundtrip (carrier_top (m PR2)) ltac:(lia)) as Hrt.
  unfold pwm10_of, bit in *.
  exec. rewrite Hon. exec.
  destruct (m index200 >=? 100) eqn:Eh;
    destruct (m last_sign =? _) eqn:El;
    [apply Z.eqb_eq in El | apply Z.eqb_neq in El
    |apply Z.eqb_eq in El | apply Z.eqb_neq in El];
    destruct Hcf as [Hc | Hc]; destruct Hdf as [Hd | Hd];
    repeat (progress (exec; rewrite ?Hc, ?Hd; cbn [Z.eqb Pos.eqb orb negb andb b2z]));
    repeat split; intros; try reflexivity; try exact Hrt;
    try congruence; try lia;
    repeat match goal with
           | H : _ \/ _ |- _ => destruct H
           end; try congruence; try lia.
Qed.

Lemma square_on_latch_witness :
  let m := st (run (receive 1 ++ receive 159 ++ receive 128 ++ [HwTmr2; Irq]) boot) in
  st (square_processing m) CWG1CON1_POLA = 0 /\
  pwm10_of (st (square_processing m)) = carrier_top (m PR2).
Proof.
  intros m.
  assert (Hc : bit (m cwg_flag)) by (left; reflexivity).
  assert (Hd : bit (m duty_flag)) by (left; reflexivity).
  assert (Hpr : 0 <= m PR2 < 256) by (vm_compute; split; [discriminate | reflexivity]).
  destruct (square_on_latch m Hc Hd Hpr eq_refl) as (_ & _ & _ & Hl & _ & Hpw & _).
  split; [exact (proj1 (proj2 (Hl (or_introl eq_refl)))) | exact (Hpw eq_refl)].
Defined.

(** ** The main loop preempted *)

(** X29. The main loop stores only to its own bookkeeping ([uart_led_flag],
    the colour, [square_tick], [GIE]) and to what [square_processing]
    drives (CWG enable and polarity, [last_sign], the two window flags, the
    pin directions, the duty register pair): never to the protocol state,
    the committed command, the timers or the pin routing and latches. *)
Theorem main_pass_stores (m : mem) :
  forallb main_store (evs (main_pass m)) = true.
Proof.
  run_all; try reflexivity;
    destruct (getColor32 (m duty5_raw)) as [[r g] b]; run_all; reflexivity.
Qed.

Lemma fire_isr_inv (e : stimulus) (m : mem) :
  isr_inv m -> isr_inv (st (fire e m)).
Proof.
  unfold isr_inv.
  intros (Hst & Hf & Hp & Hi & Hpr).
  destruct e.
  - run_all. minv_close.
  - run_all. minv_close.
  - run_all. minv_close.
  - cbv beta iota delta [fire]. destruct (irq_pending m); [|exec; minv_close].
    run_all; minv_close.
  - run_all; try minv_close;
      destruct (getColor32 (m duty5_raw)) as [[r g] b]; run_all; minv_close.
Qed.

Lemma store_frame (l l' : loc) (v : Z) (m : mem) :
  main_stores l = true -> main_stores l' = false -> upd l v m l' = m l'.
Proof.
  intros H H'. unfold upd. destruct (loc_beq l l') eqn:E; [|reflexivity].
  assert (l = l') by (destruct l, l'; try discriminate E; reflexivity).
  subst. congruence.
Qed.

Lemma reachable_preempted (m : mem) : reachable m -> preempted m.
Proof.
  induction 1; [apply pre_boot | apply pre_fire; assumption].
Qed.

(** X30. The protocol invariant, the ranges of the stage and of the table
    indices, and the four bridge configurations do not depend on main-loop
    passes being atomic: they hold in every state reached when the
    interrupt routine is entered between any two stores of the main loop,
    whatever values those stores write. *)
Theorem preempted_inv (m : mem) :
  preempted m ->
  protocol_inv m /\ isr_inv m /\ bridge_config (bridge_of m).
Proof.
  induction 1 as [|e m Hr IH|l v m Hl Hr IH].
  - split; [apply boot_inv | split].
    + unfold isr_inv. vm_compute. intuition (try discriminate; auto).
    + left. reflexivity.
  - destruct IH as (H1 & H2 & H3).
    split; [apply fire_inv, H1 | split; [apply fire_isr_inv, H2 | apply fire_bridge_config, H3]].
  - unfold protocol_inv, isr_inv, bridge_of in *.
    rewrite !(store_frame l _ v m Hl) by reflexivity. exact IH.
Qed.

Lemma preempted_inv_witness :
  let m := upd duty_flag 1 (st (run (receive 1 ++ receive 159 ++ receive 128 ++ [HwTmr2; Irq]) boot)) in
  0 <= m duty_pct <= 96 /\ bridge_config (bridge_of m).
Proof.
  intros m.
  assert (Hp : preempted m).
  { apply pre_store; [reflexivity|]. apply reachable_preempted, reachable_run, reach_boot. }
  destruct (preempted_inv m Hp) as ((_ & Hd & _) & _ & Hb).
  split; assumption.
Defined.


(** ** The LUT variant *)

Module LutFacts.
Import Lut.

Ltac lexec :=
  cbv beta iota zeta delta
    [Lut.ISR Lut.UART_processing Lut.UART_Write Lut.CCP_processing Lut.main_pass
     Lut.bind Lut.ret Lut.rd Lut.wr Lut.emit Lut.skip
     Lut.val Lut.st Lut.acts Lut.set Lut.var_beq app].

Ltac lrun := lexec; repeat (split_if; lexec).

Lemma getParity_loop_more (fuel : nat) (p n v : Z) :
  getParity_loop fuel p n = Some v -> getParity_loop (S fuel) p n = Some v.
Proof.
  revert p n. induction fuel as [|f IH]; intros p n H.
  - discriminate H.
  - cbn [getParity_loop] in H |- *.
    destruct (n =? 0); [exact H|]. apply IH. exact H.
Qed.

(** X20. [getParity] terminates on every byte within nine tests of its loop
    condition, more fuel changes nothing, and the result is the parity of
    the eight bits. *)
Theorem getParity_total (n : Z) :
  0 <= n < 256 ->
  getParity_loop 9 0 n = Some (bit_parity n) /\
  (forall k, getParity_loop (9 + k) 0 n = Some (bit_parity n)) /\
  getParity n = bit_parity n /\
  (getParity n = 0 \/ getParity n = 1).
Proof.
  intros Hn.
  assert (H9 : getParity_loop 9 0 n = Some (bit_parity n)).
  { set (chk := fun n => match getParity_loop 9 0 n with
                         | Some p => p =? bit_parity n
                         | None => false
                         end).
    assert (Hall : forallb chk (zrange 0 256) = true) by (vm_compute; reflexivity).
    pose proof (forall_zrange chk 0 256 Hall n ltac:(lia)) as H.
    unfold chk in H. destruct (getParity_loop 9 0 n) as [p|]; [|discriminate].
    apply Z.eqb_eq in H. rewrite H. reflexivity. }
  split; [exact H9|]. split; [|split].
  - intros k. induction k as [|k IH]; [exact H9|].
    rewrite Nat.add_succ_r. apply getParity_loop_more. exact IH.
  - unfold getParity. rewrite H9. reflexivity.
  - unfold getParity. rewrite H9. unfold bit_parity.
    destruct (fold_left xorb _ false); [right | left]; reflexivity.
Qed.

Lemma getParity_total_witness : getParity 255 = bit_parity 255.
Proof.
  exact (proj1 (proj2 (proj2 (getParity_total 255 ltac:(lia))))).
Defined.


Remark getParity_needs_nine : getParity_loop 8 0 255 = None.
Proof. reflexivity. Qed.

(** X21. A byte whose ninth bit is not its parity is dropped: nothing is
    written and nothing is transmitted. *)
Theorem parity_gate (s : store) :
  getParity (s buffer) <> s parity ->
  acts (UART_processing s) = [] /\
  (forall x, st (UART_processing s) x = s x).
Proof.
  intros Hne.
  assert (Hg : negb (getParity (s buffer) =? s parity) = true)
    by (apply negb_true_iff, Z.eqb_neq; exact Hne).
  lexec. rewrite Hg. lexec. split; [reflexivity | intros; reflexivity].
Qed.

Lemma parity_gate_witness : acts (UART_processing (set buffer 1 reset)) = [].
Proof.
  assert (Hne : getParity (set buffer 1 reset buffer) <> set buffer 1 reset parity)
    by (vm_compute; discriminate).
  exact (proj1 (parity_gate (set buffer 1 reset) Hne)).
Defined.


Lemma make_addr_byte_byte (start addr : Z) : 0 <= make_addr_byte start addr < 256.
Proof. unfold make_addr_byte. apply Z.mod_pos_bound. lia. Qed.

(** X22. Whatever [UART_processing] transmits, forwarded address byte or
    relayed data byte, carries its own parity in the ninth bit: the next
    node's parity gate accepts it. *)
Theorem transmissions_carry_parity (s : store) (p d : Z) :
  0 <= s buffer < 256 ->
  In (p, d) (frames (acts (UART_processing s))) ->
  p = getParity d /\ 0 <= d < 256.
Proof.
  intros Hb.
  lrun; cbn [frames In]; intros Hin;
    try contradiction;
    destruct Hin as [Heq | []]; inversion Heq; subst; clear Heq.
  - match goal with
    | |- context [getParity ?x] =>
        destruct (getParity_total x (make_addr_byte_byte _ _)) as (_ & _ & _ & [H|H]);
        rewrite H
    end; split; try reflexivity; apply make_addr_byte_byte.
  - apply negb_false_iff, Z.eqb_eq in E. rewrite <- E.
    destruct (getParity_total (s buffer) Hb) as (_ & _ & _ & [H|H]);
      rewrite H; split; try reflexivity; exact Hb.
Qed.

Lemma transmissions_carry_parity_witness :
  frames (acts (UART_processing (set buffer 5 reset))) = [(0, 3)] /\
  0 = getParity 3.
Proof.
  assert (Hb : 0 <= set buffer 5 reset buffer < 256)
    by (vm_compute; split; [discriminate | reflexivity]).
  assert (Hin : In (0, 3) (frames (acts (UART_processing (set buffer 5 reset)))))
    by (left; reflexivity).
  split; [reflexivity|].
  exact (proj1 (transmissions_carry_parity (set buffer 5 reset) 0 3 Hb Hin)).
Defined.


Lemma lut_addr_fields (b : Z) :
  0 <= b < 128 -> Z.shiftr b 1 <> 0 ->
  let b' := make_addr_byte (Z.land b 1) (u8 (Z.shiftr b 1 - 1)) in
  0 <= b' < 128 /\
  chain_address b' = chain_address b - 1 /\
  start_flag b' = start_flag b.
Proof.
  intros Hb Hne.
  set (chk := fun y =>
    (Z.shiftr y 1 =? 0) ||
    (let y' := make_addr_byte (Z.land y 1) (u8 (Z.shiftr y 1 - 1)) in
     (0 <=? y') && (y' <? 128) &&
     (chain_address y' =? chain_address y - 1) &&
     (start_flag y' =? start_flag y))).
  assert (Hall : forallb chk (zrange 0 128) = true) by (vm_compute; reflexivity).
  pose proof (forall_zrange chk 0 128 Hall b Hb) as Hchk.
  unfold chk in Hchk. clear Hall chk. cbv zeta in Hchk |- *.
  apply orb_true_iff in Hchk. destruct Hchk as [Hz | Hok].
  - apply Z.eqb_eq in Hz. contradiction.
  - repeat (apply andb_true_iff in Hok; destruct Hok as [Hok ?]).
    repeat split; try (apply Z.eqb_eq; assumption);
      try (apply Z.leb_le; assumption); try (apply Z.ltb_lt; assumption).
Qed.

Lemma lut_msb (b : Z) : 0 <= b < 256 -> (Z.shiftr b 7 =? 1) = (128 <=? b).
Proof.
  intros Hb.
  apply (forall_zrange (fun b => Bool.eqb (Z.shiftr b 7 =? 1) (128 <=? b)) 0 256)
    in Hb; [|vm_compute; reflexivity].
  apply Bool.eqb_prop in Hb. exact Hb.
Qed.

(** X23. An accepted address byte for a node further down is forwarded,
    once, with the address decremented, the start flag kept and a valid
    parity bit; the stage is reset and nothing else changes. *)
Theorem lut_address_forwarded (s : store) :
  0 <= s buffer < 128 -> getParity (s buffer) = s parity ->
  Z.shiftr (s buffer) 1 <> 0 ->
  exists b',
    frames (acts (UART_processing s)) = [(getParity b', b')] /\
    0 <= b' < 128 /\
    chain_address b' = chain_address (s buffer) - 1 /\
    start_flag b' = start_flag (s buffer) /\
    st (UART_processing s) state = 0 /\
    (forall x, x <> state -> x <> TX9D -> x <> TX1REG ->
               st (UART_processing s) x = s x).
Proof.
  intros Hb Hpar Hne.
  assert (Hg : negb (getParity (s buffer) =? s parity) = false)
    by (apply negb_false_iff, Z.eqb_eq; exact Hpar).
  assert (Hm : negb (Z.shiftr (s buffer) 7 =? 1) = true).
  { rewrite lut_msb by lia. apply negb_true_iff, Z.leb_gt. lia. }
  assert (Ha : negb (Z.shiftr (s buffer) 1 =? 0) = true)
    by (apply negb_true_iff, Z.eqb_neq; exact Hne).
  destruct (lut_addr_fields (s buffer) Hb Hne) as (Hr & Hc & Hs). cbv zeta in Hr, Hc, Hs.
  exists (make_addr_byte (Z.land (s buffer) 1) (u8 (Z.shiftr (s buffer) 1 - 1))).
  lexec. rewrite Hg. lexec. rewrite Hm. lexec. rewrite Ha. lexec.
  cbn [frames].
  destruct (getParity_total _ (make_addr_byte_byte (Z.land (s buffer) 1)
                                 (u8 (Z.shiftr (s buffer) 1 - 1))))
    as (_ & _ & _ & Hbit).
  assert (Hl : Z.land (getParity (make_addr_byte (Z.land (s buffer) 1)
                 (u8 (Z.shiftr (s buffer) 1 - 1)))) 1
               = getParity (make_addr_byte (Z.land (s buffer) 1)
                 (u8 (Z.shiftr (s buffer) 1 - 1))))
    by (destruct Hbit as [H|H]; rewrite H; reflexivity).
  rewrite Hl. repeat split; try assumption; try lia.
  intros x H1 H2 H3. destruct x; try reflexivity; congruence.
Qed.

Lemma lut_address_forwarded_witness :
  exists b', frames (acts (UART_processing (set buffer 5 reset))) = [(getParity b', b')] /\
             chain_address b' = 1.
Proof.
  assert (Hb : 0 <= set buffer 5 reset buffer < 128)
    by (vm_compute; split; [discriminate | reflexivity]).
  assert (Hne : Z.shiftr (set buffer 5 reset buffer) 1 <> 0)
    by (vm_compute; discriminate).
  destruct (lut_address_forwarded (set buffer 5 reset) Hb eq_refl Hne)
    as (b' & Hf & _ & Hc & _).
  exists b'. split; [exact Hf | exact Hc].
Defined.


Lemma lut_fields (b : Z) :
  128 <= b < 256 ->
  0 <= Z.land b FREQ_MASK <= 3 /\
  0 <= Z.shiftr (Z.land b DUTY_MASK) 2 <= 31 /\
  Z.land b FREQ_MASK = b mod 4 /\
  Z.shiftr (Z.land b DUTY_MASK) 2 = (b / 4) mod 32 /\
  0 <= lut_duty (Z.shiftr (Z.land b DUTY_MASK) 2) <= 99 /\
  27 <= idx PR_val (Z.land b FREQ_MASK) <= 72.
Proof.
  intros Hb.
  set (chk := fun b =>
    let f := Z.land b FREQ_MASK in
    let d := Z.shiftr (Z.land b DUTY_MASK) 2 in
    (0 <=? f) && (f <=? 3) && (0 <=? d) && (d <=? 31) &&
    (f =? b mod 4) && (d =? (b / 4) mod 32) &&
    (0 <=? lut_duty d) && (lut_duty d <=? 99) &&
    (27 <=? idx PR_val f) && (idx PR_val f <=? 72)).
  assert (Hall : forallb chk (zrange 128 128) = true) by (vm_compute; reflexivity).
  pose proof (forall_zrange chk 128 128 Hall b ltac:(lia)) as H.
  unfold chk in H. clear Hall chk. cbv zeta in H.
  repeat (apply andb_true_iff in H; destruct H as [H ?]).
  repeat match goal with
         | H : (_ <=? _) = true |- _ => apply Z.leb_le in H
         | H : (_ =? _) = true |- _ => apply Z.eqb_eq in H
         end.
  repeat split; assumption.
Qed.

(** X24. An accepted data byte while the node is selected commits the duty
    index (bits 6..2) and the frequency index (bits 1..0): the duty cycle is
    the table value, at most 99, the period is the table value, Timer2 is
    started, the pins are outputs, the stage returns to 0 and nothing is
    transmitted. *)
Theorem lut_command_committed (s : store) :
  128 <= s buffer < 256 -> getParity (s buffer) = s parity ->
  s state <> 0 ->
  let s' := st (UART_processing s) in
  s' duty_index = (s buffer / 4) mod 32 /\
  s' freq_index = s buffer mod 4 /\
  s' duty_cycle = lut_duty (s' duty_index) /\
  0 <= s' duty_cycle <= 99 /\
  s' PR2 = idx PR_val (s' freq_index) /\ 27 <= s' PR2 <= 72 /\
  s' T2CON = 5 /\ s' TRISA0 = 0 /\ s' TRISA1 = 0 /\
  s' state = 0 /\
  frames (acts (UART_processing s)) = [].
Proof.
  intros Hb Hpar Hst.
  assert (Hg : negb (getParity (s buffer) =? s parity) = false)
    by (apply negb_false_iff, Z.eqb_eq; exact Hpar).
  assert (Hm : negb (Z.shiftr (s buffer) 7 =? 1) = false).
  { rewrite lut_msb by lia. apply negb_false_iff, Z.leb_le. lia. }
  assert (Hs0 : (s state =? 0) = false) by (apply Z.eqb_neq; exact Hst).
  destruct (lut_fields (s buffer) Hb) as (Hf & Hd & Hfe & Hde & Hl & Hp).
  cbv zeta. lexec. rewrite Hg. lexec. rewrite Hm. lexec. rewrite Hs0. lexec.
  rewrite <- Hfe, <- Hde. repeat split; try lia.
Qed.

Lemma lut_command_committed_witness :
  let s := set state 1 (set buffer 169 reset) in
  st (UART_processing s) duty_index = 10 /\
  st (UART_processing s) duty_cycle = 10 /\
  st (UART_processing s) PR2 = 52.
Proof.
  intros s.
  assert (Hb : 128 <= s buffer < 256) by (vm_compute; split; discriminate || reflexivity).
  assert (Hs : s state <> 0) by (vm_compute; discriminate).
  destruct (lut_command_committed s Hb eq_refl Hs)
    as (Hdi & _ & Hdc & _ & Hpr & _).
  split; [exact Hdi | split; [rewrite Hdc, Hdi; reflexivity | rewrite Hpr; reflexivity]].
Defined.


(** X25. STOP of the LUT variant clears only the Timer2 run bit of T2CON,
    turns both pins into inputs and clears the duty index and the stage;
    the duty cycle itself is not reset. *)
Theorem lut_stop (s : store) :
  s buffer = 0 -> s parity = 0 ->
  let s' := st (UART_processing s) in
  Z.testbit (s' T2CON) 2 = false /\
  (forall k, k <> 2 -> Z.testbit (s' T2CON) k = Z.testbit (s T2CON) k) /\
  s' TRISA0 = 1 /\ s' TRISA1 = 1 /\
  s' duty_index = 0 /\ s' state = 0 /\
  s' duty_cycle = s duty_cycle /\
  acts (UART_processing s) =
    [Wr state 0; Wr T2CON (s' T2CON); Wr TRISA0 1; Wr TRISA1 1; Wr duty_index 0].
Proof.
  intros Hb Hpar. cbv zeta. lexec. rewrite Hb, Hpar.
  change (getParity 0) with 0. cbn [Z.eqb negb]. lexec.
  change (negb (Z.shiftr 0 7 =? 1)) with true. lexec.
  change (negb (Z.shiftr 0 1 =? 0)) with false. lexec.
  change (Z.land 0 1 =? 0) with true. lexec.
  repeat split.
  - apply Z.clearbit_eq.
  - intros k Hne. apply Z.clearbit_neq. congruence.
Qed.

Lemma lut_stop_witness :
  let s := set duty_cycle 42 (set T2CON 5 reset) in
  st (UART_processing s) T2CON = 1 /\ st (UART_processing s) duty_cycle = 42.
Proof.
  intros s.
  destruct (lut_stop s eq_refl eq_refl) as (_ & _ & _ & _ & _ & _ & Hd & _).
  split; [reflexivity | exact Hd].
Defined.


(** X26. After [CCP_processing] the two flags tell the window: [cwg_flag]
    is the two-pulse window, [duty_flag] the first pulse only; a second run
    writes nothing; and for every duty the 8-bit window of the sine+square
    firmware agrees with this one. *)
Theorem CCP_processing_flags (s : store) :
  (s cwg_flag = 0 \/ s cwg_flag = 1) ->
  (s duty_flag = 0 \/ s duty_flag = 1) ->
  let s' := st (CCP_processing s) in
  s' cwg_flag = Z.b2z (cwg_window (s index) (s duty_cycle)) /\
  s' duty_flag = Z.b2z (s index <? s duty_cycle) /\
  acts (CCP_processing s') = [] /\
  (0 <= s duty_cycle <= 155 -> 0 <= s index ->
     cwg_window (s index) (s duty_cycle) = window_on (s index) (s duty_cycle)).
Proof.
  intros Hc Hd. cbv zeta. split; [|split; [|split]].
  - lrun; cbn [Z.b2z]; norm_bools; try reflexivity; lia.
  - lrun; cbn [Z.b2z]; norm_bools; try reflexivity; lia.
  - lrun; norm_bools; try reflexivity; try congruence; lia.
  - intros Hdc Hi. unfold cwg_window, window_on.
    rewrite u8_small by lia. rewrite (Z.add_comm 100). reflexivity.
Qed.

Lemma CCP_processing_flags_witness :
  let s := set duty_cycle 10 reset in
  st (CCP_processing s) cwg_flag = 1 /\ st (CCP_processing s) duty_flag = 1.
Proof.
  intros s.
  destruct (CCP_processing_flags s (or_introl eq_refl) (or_introl eq_refl))
    as (Hc & Hd & _).
  split; [exact Hc | exact Hd].
Defined.


(** X27. [getColor] picks the key colour of half the code (clamped to 15):
    on even codes it agrees with [getColor32], and each odd code shares the
    colour of the even code before it. *)
Theorem getColor_palette :
  (forall i, 0 <= i < 256 ->
     getColor i = key16 (Z.min 15 (i / 2))) /\
  (forall k, 0 <= k <= 15 -> getColor (2 * k) = getColor32 (2 * k)) /\
  (forall k, 0 <= k <= 15 -> getColor (2 * k + 1) = getColor (2 * k)).
Proof.
  split; [|split].
  - intros i Hi. apply rgb_eqb_eq.
    apply (forall_zrange (fun i => rgb_eqb (getColor i) (key16 (Z.min 15 (i / 2)))) 0 256);
      [vm_compute; reflexivity | lia].
  - intros k Hk. apply rgb_eqb_eq.
    apply (forall_zrange (fun k => rgb_eqb (getColor (2 * k)) (getColor32 (2 * k))) 0 16);
      [vm_compute; reflexivity | lia].
  - intros k Hk. apply rgb_eqb_eq.
    apply (forall_zrange (fun k => rgb_eqb (getColor (2 * k + 1)) (getColor (2 * k))) 0 16);
      [vm_compute; reflexivity | lia].
Qed.

Lemma getColor_palette_witness :
  getColor 4 = getColor32 4 /\ getColor 5 = getColor 4.
Proof.
  destruct getColor_palette as (_ & He & Ho).
  split; [exact (He 2 ltac:(lia)) | exact (Ho 2 ltac:(lia))].
Defined.

Lemma UART_processing_keeps_window (s : store) :
  st (UART_processing s) index = s index /\
  st (UART_processing s) TMR2IF = s TMR2IF /\
  st (UART_processing s) ccp_flag = s ccp_flag /\
  st (UART_processing s) cwg_flag = s cwg_flag /\
  st (UART_processing s) duty_flag = s duty_flag.
Proof.
  lrun; repeat split; reflexivity.
Qed.

(** X28. The interrupt routine of the LUT variant serves one source per
    entry, reception first: with a byte pending the window position and the
    Timer2 flag are left as they are, the byte and its ninth bit are
    latched and the main loop is notified; otherwise a Timer2 tick advances
    the window position modulo 200 and requests a window update. *)
Theorem lut_ISR_one_source (s : store) :
  0 <= s index < 200 ->
  (s RCIF <> 0 ->
     st (ISR s) index = s index /\
     st (ISR s) TMR2IF = s TMR2IF /\
     st (ISR s) ccp_flag = s ccp_flag /\
     st (ISR s) RCIF = 0 /\
     st (ISR s) uart_recv_flag = 1) /\
  (s RCIF = 0 -> s TMR2IF <> 0 ->
     st (ISR s) index = (s index + 1) mod 200 /\
     st (ISR s) TMR2IF = 0 /\
     st (ISR s) ccp_flag = 1 /\
     acts (ISR s) =
       Wr TMR2IF 0 :: Wr index (s index + 1) ::
       (if s index =? 199 then [Wr index 0] else []) ++ [Wr ccp_flag 1]).
Proof.
  intros Hi. split.
  - intros Hr. apply truthy_true in Hr.
    lrun; repeat split; reflexivity.
  - intros Hr Ht. apply truthy_true in Ht.
    assert (Hf : truthy (s RCIF) = false) by (apply truthy_false; exact Hr).
    assert (Hu : u8 (s index + 1) = s index + 1)
      by (unfold u8; apply Z.mod_small; lia).
    lexec. rewrite Hf, Ht. lexec. rewrite Hu.
    destruct (s index =? 199) eqn:E.
    + apply Z.eqb_eq in E. rewrite E. repeat split; reflexivity.
    + apply Z.eqb_neq in E.
      assert (E2 : (s index + 1 =? 200) = false) by (apply Z.eqb_neq; lia).
      rewrite E2. lexec. rewrite Z.mod_small by lia. repeat split; reflexivity.
Qed.

Lemma lut_ISR_one_source_witness :
  st (ISR (set TMR2IF 1 (set index 199 reset))) index = 0.
Proof.
  assert (Hi : 0 <= set TMR2IF 1 (set index 199 reset) index < 200)
    by (vm_compute; split; [discriminate | reflexivity]).
  destruct (lut_ISR_one_source _ Hi) as [_ H].
  exact (proj1 (H eq_refl ltac:(vm_compute; discriminate))).
Defined.

End LutFacts.
